(** * lazystuff: the periodic [Job] of [parallelism/thread_scheduler.py]

    A [Job] owns two control paths that share the object's attributes: the
    supervisory [_loop] thread, and the one-shot [Timer] threads, each of
    which runs [_wrapper] once.  The class takes no lock.

    The development has two levels.

    The first takes the methods one call at a time.  The attributes are
    kept in a record, and the methods are programs of a small
    state-and-exception monad, so that [try]/[except]/[finally] read as in
    the source.  Its histories interleave the threads at these points: one
    iteration of the [while] of [_loop]; [_wrapper] from its start to the
    call of the wrapped function; [_wrapper] from the end of that call to
    its own end; a call of [stop] or [clear_exception] by the owner of the
    job.  Here the clock is read at whole seconds and the callable has a
    name.  This level carries the statements on what one call of a method
    does, on the exception list, and on given schedules.

    The second, [Lines], takes the threads one source line at a time, with
    a rational clock read twice on line 118, Python's [round], and a
    callable that may have no [__name__].  Every statement on what can or
    cannot happen when the threads race is made there.

    Integers are Python integers, hence [Z].  The wrapped function is
    opaque, so every invocation of it is an [outcome] chosen by the
    environment.  Calls to [logger] do not touch the object; the only one
    that is kept is line 113 in [Lines], whose message reads
    [self.function.__name__]. *)

From Stdlib Require Import QArith Qround.
From Stdlib Require Import ZArith List String Bool Lia Lqa.
From Stdlib Require Import DecimalString.
Import ListNotations.
Open Scope Z_scope.

(** ** Data model *)

Inductive Status :=
| INITIATED | SCHEDULED | RUNNING | COMPLETED | FAILED | TERMINATED.

Definition Status_eqb (a b : Status) : bool :=
  match a, b with
  | INITIATED, INITIATED | SCHEDULED, SCHEDULED | RUNNING, RUNNING
  | COMPLETED, COMPLETED | FAILED, FAILED | TERMINATED, TERMINATED => true
  | _, _ => false
  end.

(** [status in [...]] of the source. *)
Definition status_in (a : Status) (l : list Status) : bool :=
  existsb (Status_eqb a) l.

(** The attributes of a [Job].  [function] is the callable, kept by its
    [__name__]; [_stop_event] is the [Event], kept by its flag; [job] is the
    last [Timer] created, kept by its delay; [kwargs] is only passed through
    to the callable and is not represented. *)
Record Job := mkJob {
  function : string;
  every_seconds : Z;
  _stop_event : bool;
  job : option Z;
  crashed : Z;
  runs : Z;
  max_runs : Z;
  max_crashes : Z;
  status : Status;
  next_execution_at : Z;
  _exception_list : list string
}.

Definition set_status (v : Status) (j : Job) : Job :=
  mkJob (function j) (every_seconds j) (_stop_event j) (job j) (crashed j)
        (runs j) (max_runs j) (max_crashes j) v (next_execution_at j)
        (_exception_list j).

Definition set_stop_event (v : bool) (j : Job) : Job :=
  mkJob (function j) (every_seconds j) v (job j) (crashed j)
        (runs j) (max_runs j) (max_crashes j) (status j) (next_execution_at j)
        (_exception_list j).

Definition set_job (v : option Z) (j : Job) : Job :=
  mkJob (function j) (every_seconds j) (_stop_event j) v (crashed j)
        (runs j) (max_runs j) (max_crashes j) (status j) (next_execution_at j)
        (_exception_list j).

Definition set_crashed (v : Z) (j : Job) : Job :=
  mkJob (function j) (every_seconds j) (_stop_event j) (job j) v
        (runs j) (max_runs j) (max_crashes j) (status j) (next_execution_at j)
        (_exception_list j).

Definition set_runs (v : Z) (j : Job) : Job :=
  mkJob (function j) (every_seconds j) (_stop_event j) (job j) (crashed j)
        v (max_runs j) (max_crashes j) (status j) (next_execution_at j)
        (_exception_list j).

Definition set_next_execution_at (v : Z) (j : Job) : Job :=
  mkJob (function j) (every_seconds j) (_stop_event j) (job j) (crashed j)
        (runs j) (max_runs j) (max_crashes j) (status j) v
        (_exception_list j).

Definition set_exception_list (v : list string) (j : Job) : Job :=
  mkJob (function j) (every_seconds j) (_stop_event j) (job j) (crashed j)
        (runs j) (max_runs j) (max_crashes j) (status j) (next_execution_at j)
        v.

(** ** Exceptions and the method monad *)

(** What can be raised inside [_wrapper]: whatever the wrapped function
    raised (kept by its formatted traceback), or the [Exception] of line 97,
    kept by the two values interpolated in its message. *)
Inductive exn :=
| WorkError (traceback : string)
| CrashLimit (name : string) (count : Z).

Definition str_of_Z (z : Z) : string := NilZero.string_of_int (Z.to_int z).

(** [traceback.format_exc()] for the exception being handled. *)
Definition format_exc (e : exn) : string :=
  match e with
  | WorkError tb => tb
  | CrashLimit name count =>
      ("Exception: Thread " ++ name ++ " has crashed " ++ str_of_Z count
         ++ " times. Aborting...")%string
  end.

Inductive result (A : Type) :=
| Normal (a : A)
| Raised (e : exn).
Arguments Normal {A} a.
Arguments Raised {A} e.

Module Method.

(** A method body: reads and writes [self], returns or raises. *)
Definition M (A : Type) : Type := Job -> result A * Job.

Definition ret {A} (a : A) : M A := fun j => (Normal a, j).

Definition bind {A B} (m : M A) (k : A -> M B) : M B :=
  fun j => match m j with
           | (Normal a, j1) => k a j1
           | (Raised e, j1) => (Raised e, j1)
           end.

Definition raise {A} (e : exn) : M A := fun j => (Raised e, j).

Definition get {A} (field : Job -> A) : M A := fun j => (Normal (field j), j).

Definition assign (upd : Job -> Job) : M unit := fun j => (Normal tt, upd j).

Definition pass : M unit := ret tt.

(** [try: body / except: handler / finally: final], with a bare [except]:
    the handler sees every exception of the body; [final] runs on every
    path; an exception of [final] replaces one that is pending. *)
Definition try_except_finally
           (body : M unit) (handler : exn -> M unit) (final : M unit)
  : M unit :=
  fun j =>
    match body j with
    | (Normal _, j1) => final j1
    | (Raised e, j1) =>
        match handler e j1 with
        | (Normal _, j2) => final j2
        | (Raised e', j2) =>
            match final j2 with
            | (Normal _, j3) => (Raised e', j3)
            | (Raised e'', j3) => (Raised e'', j3)
            end
        end
    end.

End Method.

Import Method.

Declare Scope method_scope.
Delimit Scope method_scope with method.
Notation "x <- m ;; k" := (bind m (fun x => k))
  (at level 61, m at next level, right associativity) : method_scope.
Notation "m ;; k" := (bind m (fun _ => k))
  (at level 61, right associativity) : method_scope.
Open Scope method_scope.

(** ** The methods of [Job] *)

(** One invocation of the wrapped function, as the environment decides it. *)
Inductive outcome :=
| Returns
| Raises (traceback : string).

(** [self.function( **self.kwargs )]. *)
Definition call_function (o : outcome) : M unit :=
  match o with
  | Returns => pass
  | Raises tb => raise (WorkError tb)
  end.

(** [stop], lines 125-127. *)
Definition stop : M unit := assign (set_stop_event true).

(** Lines 82-87: the [try] block, with [time()] = [now]; it is cut at the
    call of the wrapped function, which is where the other threads get to
    run while the function works. *)
Definition wrapper_try_before_call (now : Z) : M unit :=
  every <- get every_seconds ;;
  assign (set_next_execution_at (now + every)).

Definition wrapper_try_from_call (o : outcome) : M unit :=
  call_function o ;;
  assign (set_crashed 0) ;;
  r <- get runs ;;
  assign (set_runs (r + 1)) ;;
  every <- get every_seconds ;;
  r <- get runs ;;
  mr <- get max_runs ;;
  if (every =? 0) || (r =? mr) then stop else pass.

Definition wrapper_try (now : Z) (o : outcome) : M unit :=
  wrapper_try_before_call now ;;
  wrapper_try_from_call o.

(** Lines 88-92: the [except] block. *)
Definition wrapper_except (e : exn) : M unit :=
  l <- get _exception_list ;;
  assign (set_exception_list (l ++ [format_exc e])) ;;
  c <- get crashed ;;
  assign (set_crashed (c + 1)).

(** Lines 93-99: the [finally] block. *)
Definition wrapper_finally : M unit :=
  c <- get crashed ;;
  mc <- get max_crashes ;;
  (if c >? mc
   then (assign (set_status FAILED) ;;
         stop ;;
         name <- get function ;;
         c <- get crashed ;;
         raise (CrashLimit name c))
   else pass) ;;
  assign (set_status COMPLETED).

(** [_wrapper], lines 77-99. *)
Definition _wrapper (now : Z) (o : outcome) : M unit :=
  assign (set_status RUNNING) ;;
  try_except_finally (wrapper_try now o) wrapper_except wrapper_finally.

(** [exception], lines 129-135: [None] or the list. *)
Definition exception (j : Job) : option (list string) :=
  if (Z.of_nat (List.length (_exception_list j)) =? 0) then None
  else Some (_exception_list j).

(** [clear_exception], lines 137-139. *)
Definition clear_exception : M unit := assign (set_exception_list []).

(** One iteration of the [while] of [_loop] up to [sleep(1)], lines 105-121,
    with [time()] = [now].  The value is the [terminate] flag and, when a
    [Timer] was started, its delay.  [round] is the identity on whole
    seconds. *)
Definition loop_body (now : Z) : M (bool * option Z) :=
  ev <- get _stop_event ;;
  st <- get status ;;
  if ev
  then (assign (set_status (if negb (Status_eqb st FAILED)
                            then TERMINATED else st)) ;;
        ret (true, None))
  else if status_in st [RUNNING; SCHEDULED]
  then ret (false, None)
  else if status_in st [COMPLETED; INITIATED]
  then (nxt <- get next_execution_at ;;
        let execute_in_seconds := if now <? nxt then nxt - now else 1 in
        assign (set_job (Some execute_in_seconds)) ;;
        assign (set_status SCHEDULED) ;;
        ret (false, Some execute_in_seconds))
  else ret (false, None).

(** ** The threads of a [Job]

    [_wrapper] up to the call of the wrapped function, and from that call
    on.  [wrapper_split] shows that the two halves make up [_wrapper]. *)
Definition wrapper_enter (now : Z) : M unit :=
  assign (set_status RUNNING) ;;
  wrapper_try_before_call now.

Definition wrapper_leave (o : outcome) : M unit :=
  try_except_finally (wrapper_try_from_call o) wrapper_except wrapper_finally.

(** A [Job] with its threads: [loop_running] says that [loop_thread] is
    still inside its [while]; [timers] counts the [Timer]s started and not
    yet fired; [in_function] counts the timer threads that are inside the
    wrapped function. *)
Record Sys := mkSys {
  self : Job;
  loop_running : bool;
  timers : nat;
  in_function : nat
}.

(** [__init__], lines 59-73: the attributes as assigned there, with the
    loop thread started. *)
Definition init (every : Z) (fn : string) (maxc maxr : Z) : Sys :=
  mkSys (mkJob fn every false None 0 0 maxr maxc INITIATED 0 []) true 0 0.

(** What can happen next: the loop thread runs one iteration, a started
    timer fires and its thread enters [_wrapper] and the wrapped function,
    the wrapped function returns or raises and its thread runs [_wrapper] to
    its end, or the caller calls [stop] or [clear_exception]. *)
Inductive event :=
| LoopIteration (now : Z)
| TimerFires (now : Z)
| FunctionEnds (o : outcome)
| CallStop
| CallClear.

(** [None] when the event cannot happen in that state. *)
Definition step (e : event) (s : Sys) : option Sys :=
  match e with
  | LoopIteration now =>
      if loop_running s then
        match loop_body now (self s) with
        | (Normal (terminate, Some _), j) =>
            Some (mkSys j (negb terminate) (S (timers s)) (in_function s))
        | (Normal (terminate, None), j) =>
            Some (mkSys j (negb terminate) (timers s) (in_function s))
        | (Raised _, j) =>
            Some (mkSys j false (timers s) (in_function s))
        end
      else None
  | TimerFires now =>
      match timers s with
      | S n => Some (mkSys (snd (wrapper_enter now (self s)))
                           (loop_running s) n (S (in_function s)))
      | O => None
      end
  | FunctionEnds o =>
      match in_function s with
      | S n => Some (mkSys (snd (wrapper_leave o (self s)))
                           (loop_running s) (timers s) n)
      | O => None
      end
  | CallStop =>
      Some (mkSys (snd (stop (self s)))
                  (loop_running s) (timers s) (in_function s))
  | CallClear =>
      Some (mkSys (snd (clear_exception (self s)))
                  (loop_running s) (timers s) (in_function s))
  end.

Fixpoint run (evs : list event) (s : Sys) : option Sys :=
  match evs with
  | [] => Some s
  | e :: evs' =>
      match step e s with
      | Some s' => run evs' s'
      | None => None
      end
  end.

(** One whole period with nothing in between: the loop arms a timer, the
    timer fires, the function ends with [o]. *)
Definition period (now : Z) (o : outcome) : list event :=
  [LoopIteration now; TimerFires now; FunctionEnds o].

Fixpoint periods (n : nat) (now : Z) (o : outcome) : list event :=
  match n with
  | O => []
  | S n' => period now o ++ periods n' (now + 1) o
  end.

(** *** Quantities read off a history *)

Definition is_end (e : event) : bool :=
  match e with FunctionEnds _ => true | _ => false end.

Definition is_fire (e : event) : bool :=
  match e with TimerFires _ => true | _ => false end.

(** Executions of the wrapped function that were started, and that ended. *)
Definition started (evs : list event) : nat := List.length (filter is_fire evs).
Definition ended (evs : list event) : nat := List.length (filter is_end evs).

(** The function only returns, only raises, in the history. *)
Definition returns_only (e : event) : Prop :=
  match e with FunctionEnds (Raises _) => False | _ => True end.

Definition raises_only (e : event) : Prop :=
  match e with FunctionEnds Returns => False | _ => True end.

(** The caller does not call [stop]. *)
Definition no_stop (e : event) : Prop :=
  match e with CallStop => False | _ => True end.

(** The tracebacks of the failed invocations since the object was made or
    since [clear_exception] was last called, oldest first. *)
Fixpoint failures_since_clear_from (acc : list string) (evs : list event)
  : list string :=
  match evs with
  | [] => acc
  | FunctionEnds (Raises tb) :: evs' => failures_since_clear_from (acc ++ [tb]) evs'
  | CallClear :: evs' => failures_since_clear_from [] evs'
  | _ :: evs' => failures_since_clear_from acc evs'
  end.

Definition failures_since_clear (evs : list event) : list string :=
  failures_since_clear_from [] evs.

Definition terminal (st : Status) : bool :=
  status_in st [TERMINATED; FAILED].

(** *** Predicates on jobs and their threads *)

(** The job after the two branches of [try]/[except], before [finally]. *)
Definition after_return (j : Job) : Job :=
  let j1 := set_runs (runs j + 1) (set_crashed 0 j) in
  if (every_seconds j =? 0) || (runs j + 1 =? max_runs j)
  then set_stop_event true j1 else j1.

Definition after_raise (tb : string) (j : Job) : Job :=
  set_crashed (crashed j + 1)
    (set_exception_list (_exception_list j ++ [tb]) j).

(** The configuration of a job: what [__init__] takes and nothing writes. *)
Definition same_config (j j' : Job) : Prop :=
  function j' = function j /\ every_seconds j' = every_seconds j
  /\ max_runs j' = max_runs j /\ max_crashes j' = max_crashes j.

(** The status tells where the only execution is: a started timer when
    [SCHEDULED], a thread inside the function when [RUNNING], none when
    [INITIATED], [COMPLETED] or [FAILED].  [TERMINATED] is written by the
    loop as it leaves, whatever the timer thread is doing. *)
Definition Inv (s : Sys) : Prop :=
  match status (self s) with
  | SCHEDULED => timers s = 1%nat /\ in_function s = 0%nat
  | RUNNING => timers s = 0%nat /\ in_function s = 1%nat
  | INITIATED | COMPLETED => timers s = 0%nat /\ in_function s = 0%nat
  | FAILED =>
      timers s = 0%nat /\ in_function s = 0%nat /\ _stop_event (self s) = true
  | TERMINATED =>
      (timers s + in_function s <= 1)%nat /\ loop_running s = false
  end
  /\ (loop_running s = false -> _stop_event (self s) = true).

(** A stop has been requested and no execution is armed or under way. *)
Definition halted (s : Sys) : Prop :=
  timers s = 0%nat /\ in_function s = 0%nat /\ _stop_event (self s) = true.

(** Between two executions, with the loop running and no stop requested. *)
Definition idle (s : Sys) : Prop :=
  loop_running s = true /\ _stop_event (self s) = false
  /\ timers s = 0%nat /\ in_function s = 0%nat
  /\ status_in (status (self s)) [COMPLETED; INITIATED] = true.

(** ** The threads, line by line

    The class takes no lock, so the loop thread, the timer threads and the
    owner of the job interleave at every statement.  [Lines] is the model in
    which one step is one source line that reads or writes the attributes
    of the job (a line that only touches local variables, logs or sleeps is
    taken together with the line that follows it).  A line is one step also
    where it reads an attribute twice (lines 108 and 118) or reads and then
    writes it (lines 85 and 92).  The histories of [step] above are the
    schedules of this model in which lines 105-121, lines 79-82 and lines
    83-99 each run without anything in between.

    Here the clock and the period are rationals (they are floats in the
    source: the rounding of float arithmetic is not represented); [round]
    is Python's; the callable may have no [__name__].  The model has no
    real time: a started timer may fire at any moment, and every thread may
    be delayed for any length of time between two lines. *)

Module Lines.

Record Job := mkJob {
  function : option string;
  every_seconds : Q;
  _stop_event : bool;
  job : option Z;
  crashed : Z;
  runs : Z;
  max_runs : Z;
  max_crashes : Z;
  status : Status;
  next_execution_at : Q;
  _exception_list : list string
}.

Definition set_status (v : Status) (j : Job) : Job :=
  mkJob (function j) (every_seconds j) (_stop_event j) (job j) (crashed j)
        (runs j) (max_runs j) (max_crashes j) v (next_execution_at j)
        (_exception_list j).

Definition set_stop_event (v : bool) (j : Job) : Job :=
  mkJob (function j) (every_seconds j) v (job j) (crashed j)
        (runs j) (max_runs j) (max_crashes j) (status j) (next_execution_at j)
        (_exception_list j).

Definition set_job (v : option Z) (j : Job) : Job :=
  mkJob (function j) (every_seconds j) (_stop_event j) v (crashed j)
        (runs j) (max_runs j) (max_crashes j) (status j) (next_execution_at j)
        (_exception_list j).

Definition set_crashed (v : Z) (j : Job) : Job :=
  mkJob (function j) (every_seconds j) (_stop_event j) (job j) v
        (runs j) (max_runs j) (max_crashes j) (status j) (next_execution_at j)
        (_exception_list j).

Definition set_runs (v : Z) (j : Job) : Job :=
  mkJob (function j) (every_seconds j) (_stop_event j) (job j) (crashed j)
        v (max_runs j) (max_crashes j) (status j) (next_execution_at j)
        (_exception_list j).

Definition set_next_execution_at (v : Q) (j : Job) : Job :=
  mkJob (function j) (every_seconds j) (_stop_event j) (job j) (crashed j)
        (runs j) (max_runs j) (max_crashes j) (status j) v
        (_exception_list j).

Definition set_exception_list (v : list string) (j : Job) : Job :=
  mkJob (function j) (every_seconds j) (_stop_event j) (job j) (crashed j)
        (runs j) (max_runs j) (max_crashes j) (status j) (next_execution_at j)
        v.

(** [a < b] on numbers, as a test. *)
Definition Qltb (a b : Q) : bool := negb (Qle_bool b a).

(** Python's [round] with one argument: the nearest integer, and the even
    one of the two when the number is half way between them. *)
Definition py_round (x : Q) : Z :=
  let f := Qfloor x in
  match Qcompare (x - inject_Z f) (1 # 2) with
  | Lt => f
  | Gt => f + 1
  | Eq => if Z.even f then f else f + 1
  end.

(** Where the loop thread is: the line of [_loop] it runs next.  [L119]
    holds the local [execute_in_seconds].  After line 108 the thread sets
    its local [terminate], sleeps and finds the [while] test false: it has
    [Left].  It has [Died] when an exception left [_loop]. *)
Inductive loop_pc :=
| L105
| L108
| L111
| L113
| L115
| L118
| L119 (execute_in_seconds : Z)
| L120
| L121
| Left
| Died.

(** How a timer thread ended: [_wrapper] returned, raised the [Exception]
    of line 97, or raised the [AttributeError] of [__name__] on that line. *)
Inductive ending :=
| Returned
| RaisedCrashLimit (name : string) (count : Z)
| RaisedAttributeError.

(** Where a timer thread is: [Waiting] from [start()] until it fires and
    runs line 79; then the line of [_wrapper] it runs next ([W83] while it
    is inside the wrapped function; [W91] holds the traceback of the
    exception being handled; line 90 only logs); then [Ended]. *)
Inductive timer_pc :=
| Waiting (interval : Z)
| W82
| W83
| W84
| W85
| W86
| W87
| W91 (traceback : string)
| W92
| W94
| W95
| W96
| W97
| W99
| Ended (e : ending).

(** A job with its threads.  Every [Timer] ever started is in [timers], in
    the order of the calls of [start()]. *)
Record Sys := mkSys {
  self : Job;
  loop : loop_pc;
  timers : list timer_pc
}.

(** [__init__], lines 59-73, with the loop thread about to run line 105.
    Line 73 assigns the empty exception list after line 72 has started the
    loop thread; the loop thread does not use the list, and the assignment
    is taken to have run before the first timer thread does. *)
Definition init (every : Q) (fn : option string) (maxc maxr : Z) : Sys :=
  mkSys (mkJob fn every false None 0 0 maxr maxc INITIATED 0%Q []) L105 [].

(** One line of [_loop].  The value is the job, the next place of the
    loop thread, and the timer thread started, if one was.  [clock] holds
    the two values of [time()] read on line 118, the one of the test first;
    it is needed on that line and only there. *)
Definition loop_line (clock : option (Q * Q)) (pc : loop_pc) (j : Job)
  : option (Job * loop_pc * option timer_pc) :=
  match pc, clock with
  | L105, None =>
      Some (j, if _stop_event j then L108 else L111, None)
  | L108, None =>
      Some (set_status (if negb (Status_eqb (status j) FAILED)
                        then TERMINATED else status j) j, Left, None)
  | L111, None =>
      Some (j, if status_in (status j) [RUNNING; SCHEDULED]
               then L113 else L115, None)
  | L113, None =>
      Some (j, match function j with Some _ => L105 | None => Died end, None)
  | L115, None =>
      Some (j, if status_in (status j) [COMPLETED; INITIATED]
               then L118 else L105, None)
  | L118, Some (t1, t2) =>
      Some (j, L119 (if Qltb t1 (next_execution_at j)
                     then py_round (next_execution_at j - t2) else 1), None)
  | L119 secs, None =>
      Some (set_job (Some secs) j, L120, None)
  | L120, None =>
      match job j with
      | Some secs => Some (j, L121, Some (Waiting secs))
      | None => Some (j, Died, None)
      end
  | L121, None =>
      Some (set_status SCHEDULED j, L105, None)
  | _, _ => None
  end.

(** What a timer thread is given from outside on the line it runs: the
    value of [time()] on line 82, the outcome of the wrapped function on
    line 83, nothing elsewhere. *)
Inductive input :=
| NoInput
| Clock (t : Q)
| Outcome (o : outcome).

(** One line of [_wrapper], run by a timer thread. *)
Definition wrapper_line (i : input) (pc : timer_pc) (j : Job)
  : option (Job * timer_pc) :=
  match pc, i with
  | Waiting _, NoInput => Some (set_status RUNNING j, W82)
  | W82, Clock t =>
      Some (set_next_execution_at (t + every_seconds j)%Q j, W83)
  | W83, Outcome Returns => Some (j, W84)
  | W83, Outcome (Raises tb) => Some (j, W91 tb)
  | W84, NoInput => Some (set_crashed 0 j, W85)
  | W85, NoInput => Some (set_runs (runs j + 1) j, W86)
  | W86, NoInput =>
      Some (j, if Qeq_bool (every_seconds j) 0 || (runs j =? max_runs j)
               then W87 else W94)
  | W87, NoInput => Some (set_stop_event true j, W94)
  | W91 tb, NoInput =>
      Some (set_exception_list (_exception_list j ++ [tb]) j, W92)
  | W92, NoInput => Some (set_crashed (crashed j + 1) j, W94)
  | W94, NoInput =>
      Some (j, if crashed j >? max_crashes j then W95 else W99)
  | W95, NoInput => Some (set_status FAILED j, W96)
  | W96, NoInput => Some (set_stop_event true j, W97)
  | W97, NoInput =>
      Some (j, Ended (match function j with
                      | Some name => RaisedCrashLimit name (crashed j)
                      | None => RaisedAttributeError
                      end))
  | W99, NoInput => Some (set_status COMPLETED j, Ended Returned)
  | _, _ => None
  end.

Fixpoint set_nth {A : Type} (i : nat) (x : A) (l : list A) : list A :=
  match l, i with
  | [], _ => []
  | _ :: l', O => x :: l'
  | y :: l', S i' => y :: set_nth i' x l'
  end.

(** What can happen next: the loop thread runs its next line (reading the
    clock when that is line 118), timer thread [i] runs its next line
    (reading the clock on line 82, leaving the wrapped function on line
    83), or the owner calls [stop] or [clear_exception]. *)
Inductive event :=
| LoopStep
| LoopClock (t1 t2 : Q)
| TimerStep (i : nat)
| TimerClock (i : nat) (t : Q)
| FunctionEnds (i : nat) (o : outcome)
| CallStop
| CallClear.

Definition step_loop (clock : option (Q * Q)) (s : Sys) : option Sys :=
  match loop_line clock (loop s) (self s) with
  | Some (j, pc, Some th) => Some (mkSys j pc (timers s ++ [th]))
  | Some (j, pc, None) => Some (mkSys j pc (timers s))
  | None => None
  end.

Definition step_timer (i : nat) (inp : input) (s : Sys) : option Sys :=
  match nth_error (timers s) i with
  | Some pc =>
      match wrapper_line inp pc (self s) with
      | Some (j, pc') => Some (mkSys j (loop s) (set_nth i pc' (timers s)))
      | None => None
      end
  | None => None
  end.

(** [None] when the event cannot happen in that state. *)
Definition step (e : event) (s : Sys) : option Sys :=
  match e with
  | LoopStep => step_loop None s
  | LoopClock t1 t2 => step_loop (Some (t1, t2)) s
  | TimerStep i => step_timer i NoInput s
  | TimerClock i t => step_timer i (Clock t) s
  | FunctionEnds i o => step_timer i (Outcome o) s
  | CallStop => Some (mkSys (set_stop_event true (self s)) (loop s) (timers s))
  | CallClear =>
      Some (mkSys (set_exception_list [] (self s)) (loop s) (timers s))
  end.

Fixpoint run (evs : list event) (s : Sys) : option Sys :=
  match evs with
  | [] => Some s
  | e :: evs' =>
      match step e s with
      | Some s' => run evs' s'
      | None => None
      end
  end.

(** A timer thread that has not ended: waiting to fire or inside
    [_wrapper]. *)
Definition live (pc : timer_pc) : bool :=
  match pc with Ended _ => false | _ => true end.

Definition live_count (l : list timer_pc) : nat :=
  List.length (filter live l).

(** A timer thread between the increment of [runs] and the request to
    stop: on line 86 or on line 87. *)
Definition at_86_87 (pc : timer_pc) : bool :=
  match pc with W86 | W87 => true | _ => false end.

(** The loop thread runs no more lines. *)
Definition loop_gone (pc : loop_pc) : bool :=
  match pc with Left | Died => true | _ => false end.

(** The wrapped function only raises, only returns, in a history; the
    owner does not call [stop]. *)
Definition raises_only (e : event) : Prop :=
  match e with FunctionEnds _ Returns => False | _ => True end.

Definition returns_only (e : event) : Prop :=
  match e with FunctionEnds _ (Raises _) => False | _ => True end.

Definition no_stop (e : event) : Prop :=
  match e with CallStop => False | _ => True end.

(** *** Schedules *)

(** The loop thread from line 105 to line 121 with no stop requested and
    the job between two executions: it starts a timer. *)
Definition loop_arms (t : Q) : list event :=
  [LoopStep; LoopStep; LoopStep; LoopClock t t; LoopStep; LoopStep;
   LoopStep].

(** The same up to line 120: the timer is started, line 121 is still to
    run. *)
Definition loop_arms_to_120 (t : Q) : list event :=
  [LoopStep; LoopStep; LoopStep; LoopClock t t; LoopStep; LoopStep].

(** Timer thread [i] from firing to the end of [_wrapper], entering the
    function at time [t], the function ending with [o]: lines 79, 82, 83,
    then 84-87 or 91-92, then 94 and 95-97 or 99.  [n] is the number of
    lines after line 83. *)
Definition timer_runs (i : nat) (t : Q) (o : outcome) (n : nat)
  : list event :=
  [TimerStep i; TimerClock i t; FunctionEnds i o] ++ repeat (TimerStep i) n.

(** *** Predicates on the states and histories used by the proofs *)

(** What a step is: a line of the loop, a line of a timer thread, or a
    call of the owner. *)
Inductive stepped (s : Sys) : event -> Sys -> Prop :=
| stepped_loop e clock j pc th :
    (e = LoopStep /\ clock = None
     \/ exists t1 t2, e = LoopClock t1 t2 /\ clock = Some (t1, t2)) ->
    loop_line clock (loop s) (self s) = Some (j, pc, th) ->
    stepped s e
      (mkSys j pc (timers s ++ match th with Some x => [x] | None => [] end))
| stepped_timer e i inp pc j pc' :
    (e = TimerStep i /\ inp = NoInput
     \/ (exists t, e = TimerClock i t /\ inp = Clock t)
     \/ exists o, e = FunctionEnds i o /\ inp = Outcome o) ->
    nth_error (timers s) i = Some pc ->
    wrapper_line inp pc (self s) = Some (j, pc') ->
    stepped s e (mkSys j (loop s) (set_nth i pc' (timers s)))
| stepped_stop :
    stepped s CallStop
      (mkSys (set_stop_event true (self s)) (loop s) (timers s))
| stepped_clear :
    stepped s CallClear
      (mkSys (set_exception_list [] (self s)) (loop s) (timers s)).

(** A job with a period of one second and [max_crashes] = 1 whose function
    always raises.  The loop starts the first timer (one second, the job
    being new); the first execution raises, [crashed] is 1, the status is
    [COMPLETED].  The loop comes back 0.4 seconds before the next execution
    is due: [round(0.4)] is 0, so line 120 starts a [Timer(0)], and its
    thread runs [_wrapper] to the end before the loop thread runs line 121. *)
Definition second_crash_before_line_121 : list event :=
  loop_arms 100
  ++ timer_runs 0 101 (Raises "boom") 4
  ++ loop_arms_to_120 (1016 # 10)
  ++ timer_runs 1 (1016 # 10) (Raises "boom") 6.

(** A job with a period of one second whose function returns, and an owner
    who calls [stop] when the status is [COMPLETED], just after the loop
    thread has run line 105: the loop goes on to line 120 and starts a
    timer, leaves at the next test of the event, and the timer thread runs
    [_wrapper]. *)
Definition stop_after_line_105 : list event :=
  [LoopStep; LoopStep; LoopClock 103 103; LoopStep; LoopStep; LoopStep;
   LoopStep; LoopStep]
  ++ timer_runs 1 104 Returns 5.

(** With a function that only raises and no call of [stop]: no thread is
    on lines 84-87, and a thread is on lines 95-97, or the event is set,
    only with [crashed] above [max_crashes]. *)
Definition failing_ok (c k : Z) (pc : timer_pc) : Prop :=
  match pc with
  | W84 | W85 | W86 | W87 => False
  | W95 | W96 | W97 => c > k
  | _ => True
  end.

(** With a period other than 0, a function that only returns and no call
    of [stop]: [crashed] stays 0, no thread is on lines 91-92, a thread is
    on line 87 only with [runs] at [max_runs] or above, and on lines 95-97
    only with a negative [max_crashes]. *)
Definition returning_ok (n k r : Z) (pc : timer_pc) : Prop :=
  match pc with
  | W91 _ | W92 => False
  | W87 => n <= r
  | W95 | W96 | W97 => k < 0
  | _ => True
  end.

(** The loop thread between the test of line 115 and [start()]. *)
Definition arming (pc : loop_pc) : bool :=
  match pc with L118 | L119 _ | L120 => true | _ => false end.

(** A timer thread that has been started and has not fired. *)
Definition is_waiting (pc : timer_pc) : bool :=
  match pc with Waiting _ => true | _ => false end.

(** The statuses with which line 115 lets the loop start a timer. *)
Definition between_executions (st : Status) : bool :=
  status_in st [COMPLETED; INITIATED].

(** At most one timer thread has not ended; there is none while the loop
    is about to start one; and when the status is [COMPLETED] or
    [INITIATED], there is none unless the loop has just started it and is
    on line 121, the thread not having fired yet. *)
Definition one_thread (s : Sys) : Prop :=
  (live_count (timers s) <= 1)%nat
  /\ (arming (loop s) = true ->
      live_count (timers s) = 0%nat
      /\ between_executions (status (self s)) = true)
  /\ (between_executions (status (self s)) = true ->
      (loop s <> L121 -> live_count (timers s) = 0%nat)
      /\ Forall (fun pc => live pc = true -> is_waiting pc = true)
                (timers s)).

(** A timer thread that has written [FAILED] and is about to call
    [stop]. *)
Definition at_96 (pc : timer_pc) : bool :=
  match pc with W96 => true | _ => false end.

(** The loop thread has found the stop event set. *)
Definition stop_seen (pc : loop_pc) : bool :=
  match pc with L108 | Left => true | _ => false end.

(** What is only seen once a stop has been requested. *)
Definition stop_marks (s : Sys) : Prop :=
  (stop_seen (loop s) = true -> _stop_event (self s) = true)
  /\ (status (self s) = TERMINATED -> _stop_event (self s) = true)
  /\ (status (self s) = FAILED ->
      _stop_event (self s) = true \/ existsb at_96 (timers s) = true).

(** Whether the loop thread, the stop event being set, can still reach
    line 120: it can when it has passed the test of line 105. *)
Definition may_still_arm (pc : loop_pc) : nat :=
  match pc with
  | L111 | L115 | L118 | L119 _ | L120 => 1
  | _ => 0
  end.


(** The loop thread on a line from which, the status being [SCHEDULED]
    and the stop event unset, it only polls. *)
Definition polling (pc : loop_pc) : bool :=
  match pc with L105 | L111 | L113 | L115 | Died => true | _ => false end.

(** The status says an execution is due, and no timer thread is there to
    do it. *)
Definition stuck (s : Sys) : Prop :=
  status (self s) = SCHEDULED
  /\ live_count (timers s) = 0%nat
  /\ _stop_event (self s) = false
  /\ polling (loop s) = true.

(** The history that leaves the job so: the second timer is a
    [Timer(0)], its thread runs [_wrapper] to the end before the loop
    thread runs line 121. *)
Definition wrapper_before_line_121 : list event :=
  loop_arms 100 ++ timer_runs 0 101 Returns 5
    ++ loop_arms_to_120 (1016 # 10) ++ timer_runs 1 (1016 # 10) Returns 5
    ++ [LoopStep].

(** A timer thread that has not yet run line 85. *)
Definition before_85 (pc : timer_pc) : bool :=
  match pc with Waiting _ | W82 | W83 | W84 | W85 => true | _ => false end.

(** The executions still to be counted: the timer threads that have not
    yet run line 85. *)
Definition pending (l : list timer_pc) : nat :=
  List.length (filter before_85 l).

(** While the stop event is unset, [runs] and the executions still to be
    counted stay within [n]; once it is set, they stay within [n] + 1, the
    timer the loop thread may still start counted in. *)
Definition within_limit (n : Z) (s : Sys) : Prop :=
  (_stop_event (self s) = false ->
   runs (self s) + Z.of_nat (pending (timers s)) <= n)
  /\ (_stop_event (self s) = true ->
      runs (self s) + Z.of_nat (pending (timers s))
      + Z.of_nat (may_still_arm (loop s)) <= n + 1).

(** The history in which the limit is passed: the loop thread runs line
    105 while the last execution is on line 86, and goes on after that
    execution has written [COMPLETED]. *)
Definition poll_during_last_run : list event :=
  loop_arms 100
    ++ [TimerStep 0; TimerClock 0 101; FunctionEnds 0 Returns;
        TimerStep 0; TimerStep 0]
    ++ [LoopStep]
    ++ [TimerStep 0; TimerStep 0; TimerStep 0; TimerStep 0]
    ++ [LoopStep; LoopStep; LoopClock 103 103; LoopStep; LoopStep; LoopStep]
    ++ timer_runs 1 104 Returns 5.

(** A timer thread on lines 94-97 of a [_wrapper] that is going to raise. *)
Definition past_92 (pc : timer_pc) : bool :=
  match pc with W94 | W95 | W96 | W97 => true | _ => false end.

(** The crash counter is above the limit, the loop thread is not about to
    start a timer and will not be let through line 115, and a timer thread
    that has not ended is on its way to line 97. *)
Definition crash_stopped (s : Sys) : Prop :=
  crashed (self s) > max_crashes (self s)
  /\ arming (loop s) = false
  /\ between_executions (status (self s)) = false
  /\ Forall (fun pc => live pc = true -> past_92 pc = true) (timers s).

End Lines.

(** ** What the methods compute *)

Ltac unfold_method :=
  unfold _wrapper, wrapper_enter, wrapper_leave, wrapper_try,
    wrapper_try_before_call, wrapper_try_from_call, wrapper_except,
    wrapper_finally, loop_body, clear_exception, stop, call_function,
    try_except_finally, bind, ret, raise, get, assign, pass.

(** The [finally] block on its own: it raises exactly when the crash
    counter is above the limit, and the last assignment runs otherwise. *)
Lemma wrapper_finally_eq (j : Job) :
  wrapper_finally j =
    if crashed j >? max_crashes j
    then (Raised (CrashLimit (function j) (crashed j)),
          set_stop_event true (set_status FAILED j))
    else (Normal tt, set_status COMPLETED j).
Proof.
  unfold_method. destruct (crashed j >? max_crashes j); reflexivity.
Qed.

Lemma wrapper_leave_returns (j : Job) :
  wrapper_leave Returns j = wrapper_finally (after_return j).
Proof.
  unfold wrapper_leave, try_except_finally, wrapper_try_from_call,
    after_return, call_function, bind, get, assign, pass, ret, stop.
  cbn. destruct ((every_seconds j =? 0) || (runs j + 1 =? max_runs j));
    reflexivity.
Qed.

Lemma wrapper_leave_raises (tb : string) (j : Job) :
  wrapper_leave (Raises tb) j = wrapper_finally (after_raise tb j).
Proof. reflexivity. Qed.

(** [_wrapper] is its two halves, one after the other. *)
Lemma wrapper_split (now : Z) (o : outcome) (j : Job) :
  _wrapper now o j = wrapper_leave o (snd (wrapper_enter now j)).
Proof.
  unfold _wrapper, wrapper_enter, wrapper_leave, wrapper_try,
    wrapper_try_before_call, try_except_finally, bind, get, assign.
  cbn. reflexivity.
Qed.

Lemma wrapper_enter_eq (now : Z) (j : Job) :
  wrapper_enter now j =
    (Normal tt,
     set_next_execution_at (now + every_seconds j) (set_status RUNNING j)).
Proof. reflexivity. Qed.

Lemma loop_body_stop (now : Z) (j : Job) :
  _stop_event j = true ->
  loop_body now j =
    (Normal (true, None),
     set_status (if Status_eqb (status j) FAILED then FAILED else TERMINATED) j).
Proof.
  intros H. unfold_method. rewrite H.
  destruct (status j); reflexivity.
Qed.

Lemma loop_body_go (now : Z) (j : Job) :
  _stop_event j = false ->
  loop_body now j =
    match status j with
    | RUNNING | SCHEDULED | FAILED | TERMINATED => (Normal (false, None), j)
    | COMPLETED | INITIATED =>
        let d := if now <? next_execution_at j
                 then next_execution_at j - now else 1 in
        (Normal (false, Some d), set_status SCHEDULED (set_job (Some d) j))
    end.
Proof.
  intros H. unfold_method. rewrite H.
  destruct (status j); reflexivity.
Qed.

(** ** Histories *)

Lemma run_app (a b : list event) (s : Sys) :
  run (a ++ b) s =
    match run a s with Some s' => run b s' | None => None end.
Proof.
  revert s. induction a as [|e a IH]; intros s; cbn; [reflexivity|].
  destruct (step e s); [apply IH | reflexivity].
Qed.

(** ** The shape of the reachable states *)

Lemma Inv_init (every : Z) (fn : string) (maxc maxr : Z) :
  Inv (init every fn maxc maxr).
Proof. unfold Inv; cbn. repeat split; congruence. Qed.

Ltac step_cases :=
  match goal with
  | H : step ?e ?s = Some _ |- _ =>
      destruct s as [[fn ev se jb cr rn mr mc st nx el] lr tm inf];
      destruct e as [now|now|[|tb]| |]; cbn [step self loop_running timers
                                               in_function] in H
  end.

Lemma Inv_step (e : event) (s s' : Sys) :
  Inv s -> step e s = Some s' -> Inv s'.
Proof.
  intros HI H. step_cases.
  - (* the loop *)
    destruct lr; [|discriminate].
    destruct se.
    + rewrite loop_body_stop in H by reflexivity.
      injection H as <-. unfold Inv in *; cbn in *.
      destruct st; cbn; intuition (try lia; try congruence).
    + rewrite loop_body_go in H by reflexivity. cbn in H.
      unfold Inv in *; cbn in *.
      destruct st; injection H as <-; cbn; intuition (try lia; try congruence).
  - (* a timer fires *)
    destruct tm as [|tm]; [discriminate|]. injection H as <-.
    unfold Inv in *; cbn in *.
    destruct st; cbn; intuition (try lia; try congruence).
  - (* the function returns *)
    destruct inf as [|inf]; [discriminate|]. injection H as <-.
    rewrite wrapper_leave_returns, wrapper_finally_eq.
    unfold Inv, after_return in *; cbn in *.
    destruct ((ev =? 0) || (rn + 1 =? mr)); cbn;
      destruct (0 >? mc); cbn;
      destruct st; cbn; intuition (try lia; try congruence).
  - (* the function raises *)
    destruct inf as [|inf]; [discriminate|]. injection H as <-.
    rewrite wrapper_leave_raises, wrapper_finally_eq.
    unfold Inv, after_raise in *; cbn in *.
    destruct (cr + 1 >? mc); cbn;
      destruct st; cbn; intuition (try lia; try congruence).
  - injection H as <-. unfold Inv in *; cbn in *.
    destruct st; cbn; intuition (try lia; try congruence).
  - injection H as <-. unfold Inv in *; cbn in *.
    destruct st; cbn; intuition (try lia; try congruence).
Qed.

Lemma Inv_run (evs : list event) (s s' : Sys) :
  Inv s -> run evs s = Some s' -> Inv s'.
Proof.
  revert s. induction evs as [|e evs IH]; intros s HI H; cbn in H.
  - congruence.
  - destruct (step e s) as [s1|] eqn:E; [|discriminate].
    eapply IH; [eapply Inv_step; eauto | exact H].
Qed.

(** ** A job that has been told to stop and has no execution under way

    Nothing is armed from there on: the loop, if it is still running, sees
    the event on its next iteration and leaves; the counters stay; a status
    [FAILED] or [TERMINATED] stays. *)

Lemma halted_step (e : event) (s s' : Sys) :
  halted s -> step e s = Some s' ->
  halted s'
  /\ crashed (self s') = crashed (self s)
  /\ runs (self s') = runs (self s)
  /\ is_fire e = false /\ is_end e = false
  /\ (status (self s) = FAILED -> status (self s') = FAILED)
  /\ (status (self s) = TERMINATED -> status (self s') = TERMINATED)
  /\ (loop_running s = false ->
      loop_running s' = false /\ status (self s') = status (self s)).
Proof.
  intros (Ht & Hf & Hs) H. step_cases; cbn in Ht, Hf, Hs; subst.
  - destruct lr; [|discriminate].
    rewrite loop_body_stop in H by reflexivity. injection H as <-.
    unfold halted; cbn. destruct st; cbn; intuition congruence.
  - discriminate.
  - discriminate.
  - discriminate.
  - injection H as <-. unfold halted; cbn. intuition congruence.
  - injection H as <-. unfold halted; cbn. intuition congruence.
Qed.

Lemma halted_run (evs : list event) (s s' : Sys) :
  halted s -> run evs s = Some s' ->
  halted s'
  /\ crashed (self s') = crashed (self s)
  /\ runs (self s') = runs (self s)
  /\ started evs = 0%nat /\ ended evs = 0%nat
  /\ (status (self s) = FAILED -> status (self s') = FAILED)
  /\ (status (self s) = TERMINATED -> status (self s') = TERMINATED)
  /\ (loop_running s = false ->
      loop_running s' = false /\ status (self s') = status (self s)).
Proof.
  revert s. induction evs as [|e evs IH]; intros s Hh H; cbn in H.
  - injection H as <-. intuition.
  - destruct (step e s) as [s1|] eqn:E; [|discriminate].
    destruct (halted_step e s s1 Hh E)
      as (Hh1 & Hc & Hr & Hfi & Hen & HF & HT & HL).
    destruct (IH s1 Hh1 H) as (Hh' & Hc' & Hr' & Hst & Hend & HF' & HT' & HL').
    unfold started, ended in *. cbn [filter]. rewrite Hfi, Hen.
    assert (HLL : loop_running s = false ->
                  loop_running s' = false
                  /\ status (self s') = status (self s)).
    { intros Hl. destruct (HL Hl) as [Hl1 Hs1].
      destruct (HL' Hl1) as [Hl2 Hs2]. split; congruence. }
    split; [exact Hh'|].
    repeat split; try congruence; try tauto.
Qed.

(** ** The exception list along a history *)

Lemma step_exception_list (e : event) (s s' : Sys) :
  step e s = Some s' ->
  _exception_list (self s') =
    match e with
    | FunctionEnds (Raises tb) => _exception_list (self s) ++ [tb]
    | CallClear => []
    | _ => _exception_list (self s)
    end.
Proof.
  intros H. step_cases.
  - destruct lr; [|discriminate]. destruct se.
    + rewrite loop_body_stop in H by reflexivity. injection H as <-.
      reflexivity.
    + rewrite loop_body_go in H by reflexivity.
      destruct st; injection H as <-; reflexivity.
  - destruct tm; [discriminate|]. injection H as <-. reflexivity.
  - destruct inf; [discriminate|]. injection H as <-.
    rewrite wrapper_leave_returns, wrapper_finally_eq. unfold after_return.
    cbn. destruct ((ev =? 0) || (rn + 1 =? mr)); cbn;
      destruct (0 >? mc); reflexivity.
  - destruct inf; [discriminate|]. injection H as <-.
    rewrite wrapper_leave_raises, wrapper_finally_eq. unfold after_raise.
    cbn. destruct (cr + 1 >? mc); reflexivity.
  - injection H as <-. reflexivity.
  - injection H as <-. reflexivity.
Qed.

Lemma run_exception_list (evs : list event) (s s' : Sys) :
  run evs s = Some s' ->
  _exception_list (self s') =
    failures_since_clear_from (_exception_list (self s)) evs.
Proof.
  revert s. induction evs as [|e evs IH]; intros s H; cbn in H.
  - injection H as <-. reflexivity.
  - destruct (step e s) as [s1|] eqn:E; [|discriminate].
    rewrite (IH s1 H), (step_exception_list e s s1 E).
    destruct e as [| |[|]| |]; reflexivity.
Qed.

Lemma exception_None (j : Job) :
  exception j = None <-> _exception_list j = [].
Proof.
  unfold exception. destruct (_exception_list j); cbn; split; congruence.
Qed.

Lemma exception_Some (j : Job) :
  _exception_list j <> [] -> exception j = Some (_exception_list j).
Proof.
  unfold exception. destruct (_exception_list j); cbn; congruence.
Qed.

(** ** The configuration is never written after [__init__] *)

Lemma step_config (e : event) (s s' : Sys) :
  step e s = Some s' -> same_config (self s) (self s').
Proof.
  intros H. step_cases; unfold same_config.
  - destruct lr; [|discriminate]. destruct se.
    + rewrite loop_body_stop in H by reflexivity. injection H as <-.
      cbn. tauto.
    + rewrite loop_body_go in H by reflexivity.
      destruct st; injection H as <-; cbn; tauto.
  - destruct tm; [discriminate|]. injection H as <-. cbn. tauto.
  - destruct inf; [discriminate|]. injection H as <-.
    rewrite wrapper_leave_returns, wrapper_finally_eq. unfold after_return.
    cbn. destruct ((ev =? 0) || (rn + 1 =? mr)); cbn;
      destruct (0 >? mc); cbn; tauto.
  - destruct inf; [discriminate|]. injection H as <-.
    rewrite wrapper_leave_raises, wrapper_finally_eq. unfold after_raise.
    cbn. destruct (cr + 1 >? mc); cbn; tauto.
  - injection H as <-. cbn. tauto.
  - injection H as <-. cbn. tauto.
Qed.

Lemma run_config (evs : list event) (s s' : Sys) :
  run evs s = Some s' -> same_config (self s) (self s').
Proof.
  revert s. induction evs as [|e evs IH]; intros s H; cbn in H.
  - injection H as <-. unfold same_config. tauto.
  - destruct (step e s) as [s1|] eqn:E; [|discriminate].
    pose proof (step_config e s s1 E) as (A1 & A2 & A3 & A4).
    pose proof (IH s1 H) as (B1 & B2 & B3 & B4).
    unfold same_config. repeat split; congruence.
Qed.

(** ** Whole periods, one after the other *)

Arguments loop_body : simpl never.
Arguments wrapper_leave : simpl never.

Lemma idle_init (every : Z) (fn : string) (maxc maxr : Z) :
  idle (init every fn maxc maxr).
Proof. unfold idle; cbn. tauto. Qed.

Lemma period_raises (now : Z) (tb : string) (s : Sys) :
  idle s ->
  exists s',
    run (period now (Raises tb)) s = Some s'
    /\ same_config (self s) (self s')
    /\ crashed (self s') = crashed (self s) + 1
    /\ runs (self s') = runs (self s)
    /\ _exception_list (self s') = _exception_list (self s) ++ [tb]
    /\ loop_running s' = true
    /\ if crashed (self s) + 1 >? max_crashes (self s)
       then status (self s') = FAILED /\ halted s'
       else status (self s') = COMPLETED /\ idle s'.
Proof.
  destruct s as [[fn ev se jb cr rn mr mc st nx el] lr tm inf].
  unfold idle; cbn. intros (-> & -> & -> & -> & Hst).
  unfold period; cbn [run step self loop_running].
  rewrite loop_body_go by reflexivity. cbn [status].
  destruct st; try discriminate; cbn [timers in_function self loop_running];
    rewrite wrapper_leave_raises, wrapper_finally_eq;
    cbn; destruct (cr + 1 >? mc); eexists; (split; [reflexivity|]);
    unfold same_config, halted, idle; cbn; tauto.
Qed.

Lemma period_returns (now : Z) (s : Sys) :
  idle s ->
  exists s',
    run (period now Returns) s = Some s'
    /\ same_config (self s) (self s')
    /\ crashed (self s') = 0
    /\ runs (self s') = runs (self s) + 1
    /\ _exception_list (self s') = _exception_list (self s)
    /\ loop_running s' = true
    /\ timers s' = 0%nat /\ in_function s' = 0%nat
    /\ if 0 >? max_crashes (self s)
       then status (self s') = FAILED /\ _stop_event (self s') = true
       else status (self s') = COMPLETED
            /\ _stop_event (self s') =
                 (every_seconds (self s) =? 0)
                 || (runs (self s) + 1 =? max_runs (self s)).
Proof.
  destruct s as [[fn ev se jb cr rn mr mc st nx el] lr tm inf].
  unfold idle; cbn. intros (-> & -> & -> & -> & Hst).
  unfold period; cbn [run step self loop_running].
  rewrite loop_body_go by reflexivity. cbn [status].
  destruct st; try discriminate; cbn [timers in_function self loop_running];
    rewrite wrapper_leave_returns, wrapper_finally_eq;
    unfold after_return; cbn;
    destruct ((ev =? 0) || (rn + 1 =? mr)); cbn;
    destruct (0 >? mc); eexists; (split; [reflexivity|]);
    unfold same_config; cbn; tauto.
Qed.

(** ** What one event does to the counters, the stop event and the threads *)

Lemma step_counters (e : event) (s s' : Sys) :
  step e s = Some s' ->
  match e with
  | FunctionEnds Returns =>
      crashed (self s') = 0 /\ runs (self s') = runs (self s) + 1
  | FunctionEnds (Raises _) =>
      crashed (self s') = crashed (self s) + 1
      /\ runs (self s') = runs (self s)
  | _ =>
      crashed (self s') = crashed (self s)
      /\ runs (self s') = runs (self s)
  end.
Proof.
  intros H. step_cases.
  - destruct lr; [|discriminate]. destruct se.
    + rewrite loop_body_stop in H by reflexivity. injection H as <-.
      cbn. tauto.
    + rewrite loop_body_go in H by reflexivity.
      destruct st; injection H as <-; cbn; tauto.
  - destruct tm; [discriminate|]. injection H as <-. cbn. tauto.
  - destruct inf; [discriminate|]. injection H as <-.
    rewrite wrapper_leave_returns, wrapper_finally_eq. unfold after_return.
    cbn. destruct ((ev =? 0) || (rn + 1 =? mr)); cbn;
      destruct (0 >? mc); cbn; tauto.
  - destruct inf; [discriminate|]. injection H as <-.
    rewrite wrapper_leave_raises, wrapper_finally_eq. unfold after_raise.
    cbn. destruct (cr + 1 >? mc); cbn; tauto.
  - injection H as <-. cbn. tauto.
  - injection H as <-. cbn. tauto.
Qed.

Lemma periods_returns_only (n : nat) (now : Z) :
  Forall returns_only (periods n now Returns).
Proof.
  revert now. induction n as [|n IH]; intros now; cbn.
  - constructor.
  - repeat (constructor; [exact I|]). apply IH.
Qed.

Lemma periods_no_stop (n : nat) (now : Z) (o : outcome) :
  Forall no_stop (periods n now o).
Proof.
  revert now. induction n as [|n IH]; intros now; cbn.
  - constructor.
  - repeat (constructor; [exact I|]). apply IH.
Qed.

(** ** Two runs, evaluated *)

(** A period of 1, [max_crashes] = 2, a function that always raises: after
    three periods the status is [FAILED] and three tracebacks are kept. *)
Example three_crashes :
  option_map (fun s => (status (self s), crashed (self s),
                        List.length (_exception_list (self s))))
             (run (periods 3 0 (Raises "boom")) (init 1 "f" 2 (-1)))
  = Some (FAILED, 3, 3%nat).
Proof. vm_compute. reflexivity. Qed.

(** A period of 0, a function that returns: after the single run [runs] is
    1 and the stop is requested; the next iteration of the loop writes
    [TERMINATED]. *)
Example single_run :
  option_map (fun s => (status (self s), runs (self s), _stop_event (self s)))
             (run (period 0 Returns) (init 0 "f" 10 (-1)))
  = Some (COMPLETED, 1, true)
  /\ option_map (fun s => (status (self s), loop_running s))
                (run (period 0 Returns ++ [LoopIteration 2])
                     (init 0 "f" 10 (-1)))
     = Some (TERMINATED, false).
Proof. split; vm_compute; reflexivity. Qed.

(** * The properties of the specification *)

(** C4.  Whatever the job, one execution of [_wrapper]: when the function
    returns, [crashed] is put back to 0 and [runs] goes up by one; when the
    function raises, [crashed] goes up by one and [runs] is left as it
    was. *)
Theorem wrapper_updates_counters (now : Z) (tb : string) (j : Job) :
  crashed (snd (_wrapper now Returns j)) = 0
  /\ runs (snd (_wrapper now Returns j)) = runs j + 1
  /\ crashed (snd (_wrapper now (Raises tb) j)) = crashed j + 1
  /\ runs (snd (_wrapper now (Raises tb) j)) = runs j.
Proof.
  rewrite !wrapper_split, wrapper_leave_returns, wrapper_leave_raises,
    !wrapper_finally_eq, wrapper_enter_eq.
  unfold after_return, after_raise. destruct j; cbn.
  destruct ((every_seconds0 =? 0) || (runs0 + 1 =? max_runs0)); cbn;
    destruct (0 >? max_crashes0); destruct (crashed0 + 1 >? max_crashes0);
    cbn; repeat split; reflexivity.
Qed.

(** C8.  [clear_exception] returns normally, empties the exception list and
    writes nothing else: status, [crashed], [runs], the stop event and the
    threads of the job are as before. *)
Theorem clear_exception_frame (s : Sys) :
  fst (clear_exception (self s)) = Normal tt
  /\ snd (clear_exception (self s)) = set_exception_list [] (self s)
  /\ exists s',
      step CallClear s = Some s'
      /\ _exception_list (self s') = []
      /\ status (self s') = status (self s)
      /\ crashed (self s') = crashed (self s)
      /\ runs (self s') = runs (self s)
      /\ _stop_event (self s') = _stop_event (self s)
      /\ next_execution_at (self s') = next_execution_at (self s)
      /\ same_config (self s) (self s')
      /\ loop_running s' = loop_running s
      /\ timers s' = timers s
      /\ in_function s' = in_function s.
Proof.
  split; [reflexivity|]. split; [reflexivity|].
  eexists. split; [reflexivity|]. unfold same_config. cbn. tauto.
Qed.

(** C10.  In the [finally] block, when [crashed] is above [max_crashes] the
    status is set to [FAILED], the stop is requested and the exception is
    raised, and nothing after it runs; otherwise the block ends normally
    with the status [COMPLETED].  So an execution of [_wrapper] ends
    [FAILED] with the exception exactly when [crashed] is above the limit,
    and ends [COMPLETED] without one otherwise. *)
Theorem wrapper_failed_is_not_completed (now : Z) (o : outcome) (j : Job) :
  wrapper_finally j =
    (if crashed j >? max_crashes j
     then (Raised (CrashLimit (function j) (crashed j)),
           set_stop_event true (set_status FAILED j))
     else (Normal tt, set_status COMPLETED j))
  /\ let r := _wrapper now o j in
     if crashed (snd r) >? max_crashes (snd r)
     then status (snd r) = FAILED
          /\ _stop_event (snd r) = true
          /\ fst r = Raised (CrashLimit (function j) (crashed (snd r)))
     else status (snd r) = COMPLETED /\ fst r = Normal tt.
Proof.
  split; [apply wrapper_finally_eq|].
  cbv zeta. rewrite wrapper_split, wrapper_enter_eq.
  destruct o as [|tb].
  - rewrite wrapper_leave_returns, wrapper_finally_eq.
    unfold after_return. destruct j; cbn.
    destruct ((every_seconds0 =? 0) || (runs0 + 1 =? max_runs0)); cbn;
      destruct (0 >? max_crashes0) eqn:E; cbn; rewrite E; tauto.
  - rewrite wrapper_leave_raises, wrapper_finally_eq.
    unfold after_raise. destruct j; cbn.
    destruct (crashed0 + 1 >? max_crashes0) eqn:E; cbn; rewrite E; tauto.
Qed.

(** C7.  At every point of a history of a job, the exception list holds the
    tracebacks of the executions that raised since [__init__] or since the
    last [clear_exception], in order, so its length is their number; and
    each next event changes the list in one way only: an execution that
    raises appends one traceback, [clear_exception] empties the list, every
    other event leaves it as it is. *)
Theorem exception_list_counts_failures
        (every : Z) (fn : string) (maxc maxr : Z)
        (evs : list event) (s : Sys) :
  run evs (init every fn maxc maxr) = Some s ->
  _exception_list (self s) = failures_since_clear evs
  /\ List.length (_exception_list (self s))
     = List.length (failures_since_clear evs)
  /\ forall e s',
      step e s = Some s' ->
      _exception_list (self s') =
        match e with
        | FunctionEnds (Raises tb) => _exception_list (self s) ++ [tb]
        | CallClear => []
        | _ => _exception_list (self s)
        end.
Proof.
  intros H. pose proof (run_exception_list _ _ _ H) as E. cbn in E.
  split; [exact E|]. split; [rewrite E; reflexivity|].
  intros e s'. apply step_exception_list.
Qed.

Lemma exception_list_counts_failures_witness :
  exists s,
    run (periods 2 0 (Raises "boom") ++ [CallClear]
           ++ period 5 (Raises "again"))
        (init 1 "f" 10 (-1)) = Some s
    /\ List.length (_exception_list (self s)) = 1%nat.
Proof.
  assert (E : exists s,
             run (periods 2 0 (Raises "boom") ++ [CallClear]
                    ++ period 5 (Raises "again"))
                 (init 1 "f" 10 (-1)) = Some s)
    by (vm_compute; eexists; reflexivity).
  destruct E as [s E]. exists s. split; [exact E|].
  destruct (exception_list_counts_failures 1 "f" 10 (-1) _ s E)
    as (_ & H & _).
  rewrite H. vm_compute. reflexivity.
Defined.

(** C9.  At every point of a history of a job, the [exception] property is
    [None] exactly when no execution raised since [__init__] or since the
    last [clear_exception]; otherwise it is the list of the tracebacks of
    those executions, in order. *)
Theorem exception_None_iff_no_failure
        (every : Z) (fn : string) (maxc maxr : Z)
        (evs : list event) (s : Sys) :
  run evs (init every fn maxc maxr) = Some s ->
  (exception (self s) = None <-> failures_since_clear evs = [])
  /\ (failures_since_clear evs <> [] ->
      exception (self s) = Some (failures_since_clear evs)).
Proof.
  intros H. pose proof (run_exception_list _ _ _ H) as E. cbn in E.
  fold (failures_since_clear evs) in E. rewrite <- E.
  split; [apply exception_None | apply exception_Some].
Qed.

Lemma exception_None_iff_no_failure_witness :
  exists s,
    run (period 0 (Raises "boom") ++ period 1 Returns) (init 1 "f" 10 (-1))
      = Some s
    /\ exception (self s) = Some ["boom"%string].
Proof.
  assert (E : exists s,
             run (period 0 (Raises "boom") ++ period 1 Returns)
                 (init 1 "f" 10 (-1)) = Some s)
    by (vm_compute; eexists; reflexivity).
  destruct E as [s E]. exists s. split; [exact E|].
  destruct (exception_None_iff_no_failure 1 "f" 10 (-1) _ s E) as (_ & H).
  apply H. vm_compute. discriminate.
Defined.

(** C2 as stated fails in two ways.  With [max_runs] = 0 the test
    [runs == max_runs] is first made when [runs] is already 1, so it never
    holds: after three successful executions no stop has been requested and
    the job is ready for a fourth.  With a period of 0 the stop is requested
    after the first successful execution, whatever [max_runs] is. *)
Lemma max_runs_ceiling_fails :
  (exists s,
      run (periods 3 0 Returns) (init 1 "f" 10 0) = Some s
      /\ runs (self s) = 3
      /\ _stop_event (self s) = false
      /\ status (self s) = COMPLETED
      /\ loop_running s = true
      /\ exists s', run (period 3 Returns) s = Some s'
                    /\ runs (self s') = 4)
  /\ (exists s,
         run (periods 1 0 Returns) (init 0 "f" 10 3) = Some s
         /\ runs (self s) = 1
         /\ _stop_event (self s) = true)
  /\ ~ (forall every fn K N,
           0 <= N -> 0 < K ->
           forall evs s,
             run evs (init every fn K N) = Some s ->
             Forall returns_only evs ->
             Forall no_stop evs ->
             runs (self s) <= N
             /\ (_stop_event (self s) = true <-> runs (self s) = N)).
Proof.
  assert (E : exists s,
             run (periods 3 0 Returns) (init 1 "f" 10 0) = Some s
             /\ runs (self s) = 3
             /\ _stop_event (self s) = false
             /\ status (self s) = COMPLETED
             /\ loop_running s = true
             /\ exists s', run (period 3 Returns) s = Some s'
                           /\ runs (self s') = 4).
  { vm_compute. eexists. repeat split. eexists. split; reflexivity. }
  split; [exact E|]. split.
  - vm_compute. eexists. repeat split.
  - intros H. destruct E as (s & E & Hr & _).
    assert (H0 : 0 <= 0) by lia. assert (H10 : 0 < 10) by lia.
    destruct (H 1 "f"%string 10 0 H0 H10 (periods 3 0 Returns) s E
                (periods_returns_only 3 0) (periods_no_stop 3 0 Returns))
      as [H1 _].
    lia.
Qed.

(** C1 as stated fails when the single execution raises: with a period of 0
    and the default [max_crashes] of 10, a first execution that raises
    leaves the status [COMPLETED] with no stop requested, the loop arms a
    second execution, and it runs. *)
Lemma one_shot_fails_on_failure :
  (exists s1 s2,
      run (period 0 (Raises "boom")) (init 0 "f" 10 (-1)) = Some s1
      /\ status (self s1) = COMPLETED
      /\ terminal (status (self s1)) = false
      /\ _stop_event (self s1) = false
      /\ run (period 1 (Raises "boom")) s1 = Some s2
      /\ started (period 0 (Raises "boom") ++ period 1 (Raises "boom"))
         = 2%nat
      /\ crashed (self s2) = 2
      /\ terminal (status (self s2)) = false)
  /\ ~ (forall fn K maxr o now t,
           0 < K ->
           exists s,
             run (period now o ++ [LoopIteration t]) (init 0 fn K maxr)
               = Some s
             /\ terminal (status (self s)) = true).
Proof.
  assert (E : exists s1 s2,
             run (period 0 (Raises "boom")) (init 0 "f" 10 (-1)) = Some s1
             /\ status (self s1) = COMPLETED
             /\ terminal (status (self s1)) = false
             /\ _stop_event (self s1) = false
             /\ run (period 1 (Raises "boom")) s1 = Some s2
             /\ started (period 0 (Raises "boom")
                           ++ period 1 (Raises "boom")) = 2%nat
             /\ crashed (self s2) = 2
             /\ terminal (status (self s2)) = false).
  { vm_compute. do 2 eexists. repeat split. }
  split; [exact E|].
  intros H.
  assert (H10 : 0 < 10) by lia.
  destruct (H "f"%string 10 (-1) (Raises "boom") 0 1 H10) as (s & Hrun & Ht).
  vm_compute in Hrun. injection Hrun as <-. vm_compute in Ht. discriminate.
Qed.


(** * Further properties of the job *)

(** The end of [_wrapper], whatever the state it started from. *)
Lemma wrapper_leave_facts (o : outcome) (j : Job) :
  let j' := snd (wrapper_leave o j) in
  status j' = (if crashed j' >? max_crashes j' then FAILED else COMPLETED)
  /\ (_stop_event j = true -> _stop_event j' = true)
  /\ match o with
     | Returns =>
         runs j' = runs j + 1 /\ crashed j' = 0
         /\ _exception_list j' = _exception_list j
     | Raises tb =>
         runs j' = runs j /\ crashed j' = crashed j + 1
         /\ _exception_list j' = _exception_list j ++ [tb]
     end.
Proof.
  destruct j as [fn ev se jb cr rn mr mc st nx el]. destruct o as [|tb].
  - rewrite wrapper_leave_returns, wrapper_finally_eq. unfold after_return.
    cbn. destruct ((ev =? 0) || (rn + 1 =? mr)); cbn;
      destruct (0 >? mc) eqn:E; cbn; rewrite E; tauto.
  - rewrite wrapper_leave_raises, wrapper_finally_eq. unfold after_raise.
    cbn. destruct (cr + 1 >? mc) eqn:E; cbn; rewrite E; tauto.
Qed.

(** X5.  A stop that comes while the function is running does not give the
    status [TERMINATED] in the end.  At a point of a history where the
    status is [RUNNING] and the loop is still running: after [stop] the next
    iteration of the loop writes [TERMINATED] and ends the loop; the
    execution under way is not interrupted, and when it ends [_wrapper]
    overwrites the status with [COMPLETED] (or [FAILED], past the crash
    limit), with the counters updated as for any execution; that status
    then stays for good and nothing is executed any more. *)
Theorem stop_while_running
        (every : Z) (name : string) (maxc maxr : Z)
        (evs : list event) (s : Sys) (t : Z) (o : outcome) :
  run evs (init every name maxc maxr) = Some s ->
  status (self s) = RUNNING ->
  loop_running s = true ->
  exists s1 s2,
    run [CallStop; LoopIteration t] s = Some s1
    /\ status (self s1) = TERMINATED
    /\ loop_running s1 = false
    /\ step (FunctionEnds o) s1 = Some s2
    /\ status (self s2) =
         (if crashed (self s2) >? max_crashes (self s2)
          then FAILED else COMPLETED)
    /\ match o with
       | Returns => runs (self s2) = runs (self s) + 1
       | Raises tb =>
           _exception_list (self s2) = _exception_list (self s) ++ [tb]
       end
    /\ forall rest s3,
        run rest s2 = Some s3 ->
        status (self s3) = status (self s2) /\ started rest = 0%nat.
Proof.
  intros Hrun Hst Hl.
  pose proof (Inv_run _ _ _ (Inv_init every name maxc maxr) Hrun) as [HI _].
  rewrite Hst in HI. destruct HI as [Htm Hin].
  destruct s as [j lr tm inf]. cbn in Hst, Hl, Htm, Hin. subst lr tm inf.
  set (j1 := set_status TERMINATED (set_stop_event true j)).
  exists (mkSys j1 false 0 1), (mkSys (snd (wrapper_leave o j1)) false 0 0).
  split.
  { cbn [run step self loop_running timers in_function stop assign snd].
    rewrite loop_body_stop by reflexivity.
    cbn [set_stop_event status]. rewrite Hst. reflexivity. }
  split; [reflexivity|]. split; [reflexivity|]. split; [reflexivity|].
  destruct (wrapper_leave_facts o j1) as (Hs2 & Hstop & Ho).
  cbn [self]. split; [exact Hs2|]. split.
  { destruct o; cbn in Ho; tauto. }
  intros rest s3 Hrest.
  assert (Hh : halted (mkSys (snd (wrapper_leave o j1)) false 0 0)).
  { unfold halted. cbn [self timers in_function].
    repeat split. apply Hstop. reflexivity. }
  destruct (halted_run rest _ s3 Hh Hrest)
    as (_ & _ & _ & Hs & _ & _ & _ & HL).
  destruct (HL eq_refl) as [_ HS]. split; [exact HS | exact Hs].
Qed.

Lemma stop_while_running_witness :
  exists s s1 s2,
    run [LoopIteration 0; TimerFires 1] (init 2 "f" 10 (-1)) = Some s
    /\ run [CallStop; LoopIteration 3] s = Some s1
    /\ step (FunctionEnds Returns) s1 = Some s2
    /\ status (self s1) = TERMINATED
    /\ status (self s2) = COMPLETED.
Proof.
  assert (E : exists s,
             run [LoopIteration 0; TimerFires 1] (init 2 "f" 10 (-1))
               = Some s
             /\ status (self s) = RUNNING /\ loop_running s = true).
  { vm_compute. eexists. repeat split. }
  destruct E as (s & E & Hst & Hl). exists s.
  destruct (stop_while_running 2 "f" 10 (-1) _ s 3 Returns E Hst Hl)
    as (s1 & s2 & H1 & H2 & _ & H3 & H4 & H5 & _).
  exists s1, s2. split; [exact E|]. split; [exact H1|]. split; [exact H3|].
  split; [exact H2|].
  rewrite H4.
  pose proof (run_config _ _ _ E) as (_ & _ & _ & Hm).
  pose proof (run_config _ _ _ H1) as (_ & _ & _ & Hm1).
  pose proof (step_config _ _ _ H3) as (_ & _ & _ & Hm2).
  pose proof (step_counters _ _ _ H3) as [Hc _].
  rewrite Hc, Hm2, Hm1, Hm. reflexivity.
Defined.

(** X6.  A stop that comes while a timer is armed does not cancel the
    timer.  At a point of a history where the status is [SCHEDULED] and the
    loop is still running: after [stop] the next iteration of the loop
    writes [TERMINATED] and ends the loop, but the timer is still there; it
    fires, the function is executed once more with the counters updated as
    for any execution, and the status ends as [COMPLETED] (or [FAILED]),
    for good. *)
Theorem stop_while_scheduled
        (every : Z) (name : string) (maxc maxr : Z)
        (evs : list event) (s : Sys) (t t' : Z) (o : outcome) :
  run evs (init every name maxc maxr) = Some s ->
  status (self s) = SCHEDULED ->
  loop_running s = true ->
  exists s1 s2,
    run [CallStop; LoopIteration t] s = Some s1
    /\ status (self s1) = TERMINATED
    /\ loop_running s1 = false
    /\ timers s1 = 1%nat
    /\ run [TimerFires t'; FunctionEnds o] s1 = Some s2
    /\ status (self s2) =
         (if crashed (self s2) >? max_crashes (self s2)
          then FAILED else COMPLETED)
    /\ match o with
       | Returns => runs (self s2) = runs (self s) + 1
       | Raises tb =>
           _exception_list (self s2) = _exception_list (self s) ++ [tb]
       end
    /\ forall rest s3,
        run rest s2 = Some s3 ->
        status (self s3) = status (self s2) /\ started rest = 0%nat.
Proof.
  intros Hrun Hst Hl.
  pose proof (Inv_run _ _ _ (Inv_init every name maxc maxr) Hrun) as [HI _].
  rewrite Hst in HI. destruct HI as [Htm Hin].
  destruct s as [j lr tm inf]. cbn in Hst, Hl, Htm, Hin. subst lr tm inf.
  set (j1 := set_status TERMINATED (set_stop_event true j)).
  set (j2 := snd (wrapper_enter t' j1)).
  exists (mkSys j1 false 1 0), (mkSys (snd (wrapper_leave o j2)) false 0 0).
  split.
  { cbn [run step self loop_running timers in_function stop assign snd].
    rewrite loop_body_stop by reflexivity.
    cbn [set_stop_event status]. rewrite Hst. reflexivity. }
  split; [reflexivity|]. split; [reflexivity|]. split; [reflexivity|].
  split; [reflexivity|].
  destruct (wrapper_leave_facts o j2) as (Hs2 & Hstop & Ho).
  cbn [self]. split; [exact Hs2|]. split.
  { destruct o; cbn in Ho; tauto. }
  intros rest s3 Hrest.
  assert (Hh : halted (mkSys (snd (wrapper_leave o j2)) false 0 0)).
  { unfold halted. cbn [self timers in_function].
    repeat split. apply Hstop. reflexivity. }
  destruct (halted_run rest _ s3 Hh Hrest)
    as (_ & _ & _ & Hs & _ & _ & _ & HL).
  destruct (HL eq_refl) as [_ HS]. split; [exact HS | exact Hs].
Qed.

Lemma stop_while_scheduled_witness :
  exists s s1 s2,
    run [LoopIteration 0] (init 2 "f" 10 (-1)) = Some s
    /\ run [CallStop; LoopIteration 1] s = Some s1
    /\ run [TimerFires 2; FunctionEnds (Raises "boom")] s1 = Some s2
    /\ _exception_list (self s2) = _exception_list (self s) ++ ["boom"%string].
Proof.
  assert (E : exists s,
             run [LoopIteration 0] (init 2 "f" 10 (-1)) = Some s
             /\ status (self s) = SCHEDULED /\ loop_running s = true).
  { vm_compute. eexists. repeat split. }
  destruct E as (s & E & Hst & Hl). exists s.
  destruct (stop_while_scheduled 2 "f" 10 (-1) _ s 1 2 (Raises "boom")
              E Hst Hl)
    as (s1 & s2 & H1 & _ & _ & _ & H2 & _ & H3 & _).
  exists s1, s2. split; [exact E|]. split; [exact H1|].
  split; [exact H2 | exact H3].
Defined.

(** X11.  A negative [max_crashes] makes the first execution fatal, even
    when the function returns.  For a job made with [max_crashes] < 0, the
    first period ends with the status [FAILED] and the stop event set,
    whatever the function did ([runs] is 1 if it returned, the traceback
    is kept if it raised); the status stays [FAILED] and nothing is executed
    after it. *)
Theorem negative_max_crashes
        (every : Z) (fn : string) (K maxr : Z) (now : Z) (o : outcome) :
  K < 0 ->
  exists s,
    run (period now o) (init every fn K maxr) = Some s
    /\ status (self s) = FAILED
    /\ _stop_event (self s) = true
    /\ match o with
       | Returns => runs (self s) = 1 /\ exception (self s) = None
       | Raises tb => runs (self s) = 0 /\ exception (self s) = Some [tb]
       end
    /\ forall rest s',
        run rest s = Some s' ->
        status (self s') = FAILED /\ started rest = 0%nat.
Proof.
  intros HK. destruct o as [|tb].
  - destruct (period_returns now (init every fn K maxr)
                (idle_init every fn K maxr))
      as (s & Hrun & _ & _ & Hr & Hel & _ & Htm & Hin & Hif).
    cbn in Hr, Hel, Hif.
    destruct (Z.gtb_spec 0 K); [|lia]. destruct Hif as [HF Hs].
    exists s. split; [exact Hrun|]. split; [exact HF|]. split; [exact Hs|].
    split.
    { split; [exact Hr|]. apply exception_None. exact Hel. }
    intros rest s' Hrest.
    assert (Hh : halted s) by (unfold halted; tauto).
    destruct (halted_run rest s s' Hh Hrest)
      as (_ & _ & _ & Hst & _ & HF' & _).
    split; [apply HF'; exact HF | exact Hst].
  - destruct (period_raises now tb (init every fn K maxr)
                (idle_init every fn K maxr))
      as (s & Hrun & _ & _ & Hr & Hel & _ & Hif).
    cbn in Hr, Hel, Hif.
    destruct (Z.gtb_spec 1 K); [|lia]. destruct Hif as [HF Hh].
    exists s. split; [exact Hrun|]. split; [exact HF|].
    split; [apply Hh|]. split.
    { split; [exact Hr|]. rewrite exception_Some; rewrite Hel;
        [reflexivity | discriminate]. }
    intros rest s' Hrest.
    destruct (halted_run rest s s' Hh Hrest)
      as (_ & _ & _ & Hst & _ & HF' & _).
    split; [apply HF'; exact HF | exact Hst].
Qed.

Lemma negative_max_crashes_witness :
  exists s,
    run (period 0 Returns) (init 1 "f" (-1) (-1)) = Some s
    /\ status (self s) = FAILED /\ runs (self s) = 1.
Proof.
  assert (HK : -1 < 0) by lia.
  destruct (negative_max_crashes 1 "f" (-1) (-1) 0 Returns HK)
    as (s & Hr & HF & _ & (Hn & _) & _).
  exists s. split; [exact Hr|]. split; [exact HF | exact Hn].
Defined.


(** * The threads line by line: what the races do *)

Module Interleaving.

Import Lines.

(** ** Lists of timer threads *)

Lemma nth_error_set_nth_same {A : Type} (l : list A) (i : nat) (x y : A) :
  nth_error l i = Some x -> nth_error (set_nth i y l) i = Some y.
Proof.
  revert i. induction l as [|a l IH]; intros [|i] H; cbn in *;
    try discriminate; [reflexivity | apply IH; exact H].
Qed.

Lemma nth_error_set_nth_other {A : Type} (l : list A) (i k : nat) (y : A) :
  i <> k -> nth_error (set_nth i y l) k = nth_error l k.
Proof.
  revert i k. induction l as [|a l IH]; intros [|i] [|k] H; cbn;
    try reflexivity; [contradiction | apply IH; congruence].
Qed.

Lemma length_set_nth {A : Type} (l : list A) (i : nat) (y : A) :
  List.length (set_nth i y l) = List.length l.
Proof.
  revert i. induction l as [|a l IH]; intros [|i]; cbn; try reflexivity.
  rewrite IH. reflexivity.
Qed.

Lemma live_count_set_nth (l : list timer_pc) (i : nat) (x y : timer_pc) :
  nth_error l i = Some x ->
  (live_count (set_nth i y l) + (if live x then 1 else 0)
   = live_count l + (if live y then 1 else 0))%nat.
Proof.
  unfold live_count. revert i.
  induction l as [|a l IH]; intros [|i] H; cbn in *; try discriminate.
  - injection H as ->. destruct (live x), (live y); cbn; lia.
  - specialize (IH i H). destruct (live a); cbn; lia.
Qed.

Lemma live_count_app (l : list timer_pc) (x : timer_pc) :
  live_count (l ++ [x]) = (live_count l + (if live x then 1 else 0))%nat.
Proof.
  unfold live_count. rewrite filter_app, length_app. cbn.
  destruct (live x); reflexivity.
Qed.

Lemma live_count_zero (l : list timer_pc) (i : nat) (pc : timer_pc) :
  live_count l = 0%nat -> nth_error l i = Some pc -> live pc = false.
Proof.
  unfold live_count. revert i.
  induction l as [|a l IH]; intros [|i] H0 H; cbn in *; try discriminate.
  - injection H as ->. destruct (live pc); [discriminate | reflexivity].
  - destruct (live a); [discriminate|]. apply (IH i H0 H).
Qed.

(** ** Histories *)

Lemma run_concat (a b : list event) (s : Sys) :
  run (a ++ b) s =
    match run a s with Some s' => run b s' | None => None end.
Proof.
  revert s. induction a as [|e a IH]; intros s; cbn; [reflexivity|].
  destruct (step e s); [apply IH | reflexivity].
Qed.

(** Induction along a history, from its first event on. *)
Lemma run_ind (s0 : Sys) (P : list event -> Sys -> Prop) :
  P [] s0 ->
  (forall evs s e s',
      run evs s0 = Some s -> P evs s -> step e s = Some s' ->
      P (evs ++ [e]) s') ->
  forall evs s, run evs s0 = Some s -> P evs s.
Proof.
  intros H0 Hstep evs.
  induction evs as [|e evs IH] using rev_ind; intros s Hrun.
  - cbn in Hrun. injection Hrun as <-. exact H0.
  - rewrite run_concat in Hrun.
    destruct (run evs s0) as [s1|] eqn:E1; [|discriminate].
    cbn in Hrun. destruct (step e s1) as [s2|] eqn:E2; [|discriminate].
    injection Hrun as <-. eauto.
Qed.

Lemma step_stepped (e : event) (s s' : Sys) :
  step e s = Some s' -> stepped s e s'.
Proof.
  destruct e as [|t1 t2|i|i t|i o| |]; cbn; unfold step_loop, step_timer.
  - destruct (loop_line None (loop s) (self s)) as [[[j pc] [th|]]|] eqn:E;
      intros H; try discriminate; injection H as <-.
    + apply (stepped_loop s LoopStep None j pc (Some th)); [tauto | exact E].
    + rewrite <- (app_nil_r (timers s)).
      apply (stepped_loop s LoopStep None j pc None); [tauto | exact E].
  - destruct (loop_line (Some (t1, t2)) (loop s) (self s))
      as [[[j pc] [th|]]|] eqn:E;
      intros H; try discriminate; injection H as <-.
    + apply (stepped_loop s _ (Some (t1, t2)) j pc (Some th));
        [right; eauto | exact E].
    + rewrite <- (app_nil_r (timers s)).
      apply (stepped_loop s _ (Some (t1, t2)) j pc None);
        [right; eauto | exact E].
  - destruct (nth_error (timers s) i) as [pc|] eqn:En; [|discriminate].
    destruct (wrapper_line NoInput pc (self s)) as [[j pc']|] eqn:E;
      intros H; try discriminate; injection H as <-.
    eapply stepped_timer; eauto.
  - destruct (nth_error (timers s) i) as [pc|] eqn:En; [|discriminate].
    destruct (wrapper_line (Clock t) pc (self s)) as [[j pc']|] eqn:E;
      intros H; try discriminate; injection H as <-.
    eapply stepped_timer; eauto.
  - destruct (nth_error (timers s) i) as [pc|] eqn:En; [|discriminate].
    destruct (wrapper_line (Outcome o) pc (self s)) as [[j pc']|] eqn:E;
      intros H; try discriminate; injection H as <-.
    eapply stepped_timer; eauto 6.
  - intros H. injection H as <-. constructor.
  - intros H. injection H as <-. constructor.
Qed.

(** ** When every thread has ended *)

Lemma quiet_step (e : event) (s s' : Sys) :
  loop_gone (loop s) = true -> live_count (timers s) = 0%nat ->
  step e s = Some s' ->
  loop s' = loop s /\ timers s' = timers s
  /\ status (self s') = status (self s)
  /\ runs (self s') = runs (self s)
  /\ crashed (self s') = crashed (self s).
Proof.
  intros Hl Ht H. apply step_stepped in H.
  destruct H as [e clock j pc th _ H|e i inp pc j pc' _ Hn H| |].
  - destruct (loop s); try discriminate Hl; destruct clock as [[? ?]|];
      discriminate H.
  - pose proof (live_count_zero _ _ _ Ht Hn) as Hd.
    destruct pc; try discriminate Hd. destruct inp; discriminate H.
  - cbn. tauto.
  - cbn. tauto.
Qed.

Lemma quiet_run (evs : list event) (s s' : Sys) :
  loop_gone (loop s) = true -> live_count (timers s) = 0%nat ->
  run evs s = Some s' ->
  loop s' = loop s /\ timers s' = timers s
  /\ status (self s') = status (self s)
  /\ runs (self s') = runs (self s)
  /\ crashed (self s') = crashed (self s).
Proof.
  revert s. induction evs as [|e evs IH]; intros s Hl Ht H; cbn in H.
  - injection H as <-. tauto.
  - destruct (step e s) as [s1|] eqn:E; [|discriminate].
    destruct (quiet_step e s s1 Hl Ht E) as (A & B & C & D & F).
    destruct (IH s1) as (A' & B' & C' & D' & F'); try congruence.
    repeat split; congruence.
Qed.

(** ** Three schedules of the races *)

(** C3.  The schedule [second_crash_before_line_121] of a job with
    [max_crashes] = 1 and a function that always raises: after the second
    crash the status is [FAILED] with [crashed] = 2 and the loop thread is on
    line 121; that line then writes [SCHEDULED] over [FAILED].  The job is in
    a status other than [FAILED] with [crashed] above [max_crashes], and no
    timer thread is left. *)
Theorem failed_overwritten_by_line_121 :
  exists s1 s2,
    run second_crash_before_line_121 (init 1 (Some "f"%string) 1 (-1))
      = Some s1
    /\ status (self s1) = FAILED
    /\ crashed (self s1) = 2
    /\ loop s1 = L121
    /\ job (self s1) = Some 0
    /\ step LoopStep s1 = Some s2
    /\ status (self s2) = SCHEDULED
    /\ crashed (self s2) = 2
    /\ max_crashes (self s2) = 1
    /\ live_count (timers s2) = 0%nat.
Proof.
  vm_compute. do 2 eexists. repeat split.
Qed.

(** C5.  The same schedule, two lines further: the loop finds the stop
    event set on line 105 and line 108 writes [TERMINATED], the status it
    reads being [SCHEDULED].  [FAILED] was reached and the last status of
    the job is [TERMINATED]: every thread has ended and the status stays
    whatever the owner calls. *)
Theorem failed_ends_terminated :
  exists s1 s3,
    run second_crash_before_line_121 (init 1 (Some "f"%string) 1 (-1))
      = Some s1
    /\ status (self s1) = FAILED
    /\ run [LoopStep; LoopStep; LoopStep] s1 = Some s3
    /\ status (self s3) = TERMINATED
    /\ loop s3 = Left
    /\ live_count (timers s3) = 0%nat
    /\ forall rest s', run rest s3 = Some s' ->
                       status (self s') = TERMINATED.
Proof.
  assert (E : exists s1 s3,
             run second_crash_before_line_121
                 (init 1 (Some "f"%string) 1 (-1)) = Some s1
             /\ status (self s1) = FAILED
             /\ run [LoopStep; LoopStep; LoopStep] s1 = Some s3
             /\ status (self s3) = TERMINATED
             /\ loop_gone (loop s3) = true
             /\ loop s3 = Left
             /\ live_count (timers s3) = 0%nat).
  { vm_compute. do 2 eexists. repeat split. }
  destruct E as (s1 & s3 & E1 & HF & E3 & HT & Hg & Hl & Hc).
  exists s1, s3. repeat (split; [assumption|]).
  intros rest s' Hrest.
  destruct (quiet_run rest s3 s' Hg Hc Hrest) as (_ & _ & Hs & _).
  congruence.
Qed.

(** C6.  A job with a period of one second whose function returns; after
    the first execution the status is [COMPLETED], no timer is armed, the
    loop thread has run line 105 and [stop] is called.  The schedule
    [stop_after_line_105] follows: a second timer is started after the
    call, the function is executed a second time, and the job ends with the
    status [COMPLETED], which stays. *)
Theorem timer_started_after_stop :
  exists s0 s,
    run (loop_arms 100 ++ timer_runs 0 101 Returns 5 ++ [LoopStep])
        (init 1 (Some "f"%string) 10 (-1)) = Some s0
    /\ status (self s0) = COMPLETED
    /\ live_count (timers s0) = 0%nat
    /\ List.length (timers s0) = 1%nat
    /\ runs (self s0) = 1
    /\ run (CallStop :: stop_after_line_105) s0 = Some s
    /\ List.length (timers s) = 2%nat
    /\ runs (self s) = 2
    /\ status (self s) = COMPLETED
    /\ loop s = Left
    /\ forall rest s', run rest s = Some s' ->
                       status (self s') = COMPLETED.
Proof.
  assert (E : exists s0 s,
             run (loop_arms 100 ++ timer_runs 0 101 Returns 5 ++ [LoopStep])
                 (init 1 (Some "f"%string) 10 (-1)) = Some s0
             /\ status (self s0) = COMPLETED
             /\ live_count (timers s0) = 0%nat
             /\ List.length (timers s0) = 1%nat
             /\ runs (self s0) = 1
             /\ run (CallStop :: stop_after_line_105) s0 = Some s
             /\ List.length (timers s) = 2%nat
             /\ runs (self s) = 2
             /\ status (self s) = COMPLETED
             /\ loop s = Left
             /\ loop_gone (loop s) = true
             /\ live_count (timers s) = 0%nat).
  { vm_compute. do 2 eexists. repeat split. }
  destruct E as (s0 & s & E0 & A1 & A2 & A3 & A4 & E & B1 & B2 & B3 & B4
                 & Hg & Hc).
  exists s0, s. repeat (split; [assumption|]).
  intros rest s' Hrest.
  destruct (quiet_run rest s s' Hg Hc Hrest) as (_ & _ & Hs & _).
  congruence.
Qed.

(** ** What a step never does *)

Ltac loop_cases H :=
  match type of H with
  | loop_line ?c ?l ?j = Some _ =>
      let El := fresh "El" in
      destruct l eqn:El; destruct c as [[? ?]|]; cbn in H;
      try discriminate H;
      try match type of H with
          | context [match job ?x with _ => _ end] =>
              destruct (job x) eqn:?; cbn in H
          end;
      injection H as <- <- <-
  end.

Ltac timer_cases H :=
  match type of H with
  | wrapper_line ?i ?pc ?j = Some _ =>
      destruct pc; destruct i as [|?|[|?]]; cbn in H;
      try discriminate H; injection H as <- <-
  end.

Lemma Forall_set_nth {A : Type} (P : A -> Prop) (l : list A) (i : nat)
      (y : A) :
  Forall P l -> P y -> Forall P (set_nth i y l).
Proof.
  intros Hl Hy. revert i. induction Hl as [|a l Ha Hl IH]; intros [|i]; cbn;
    constructor; auto.
Qed.

Lemma Forall_nth_error {A : Type} (P : A -> Prop) (l : list A) (i : nat)
      (x : A) :
  Forall P l -> nth_error l i = Some x -> P x.
Proof.
  intros Hl Hn. rewrite Forall_forall in Hl. apply Hl.
  apply (nth_error_In _ _ Hn).
Qed.

Lemma existsb_set_nth_new {A : Type} (f : A -> bool) (l : list A) (i : nat)
      (x y : A) :
  nth_error l i = Some x -> f y = true -> existsb f (set_nth i y l) = true.
Proof.
  revert i. induction l as [|a l IH]; intros [|i] Hn Hy; cbn in *;
    try discriminate.
  - rewrite Hy. reflexivity.
  - rewrite (IH i Hn Hy). apply orb_true_r.
Qed.

Lemma existsb_set_nth_keep {A : Type} (f : A -> bool) (l : list A) (i : nat)
      (x y : A) :
  nth_error l i = Some x -> f x = false ->
  existsb f l = true -> existsb f (set_nth i y l) = true.
Proof.
  revert i. induction l as [|a l IH]; intros [|i] Hn Hx H; cbn in *;
    try discriminate.
  - injection Hn as ->. rewrite Hx in H. cbn in H. rewrite H.
    apply orb_true_r.
  - destruct (f a); [reflexivity|]. cbn in *. apply (IH i Hn Hx H).
Qed.

Lemma existsb_app_keep {A : Type} (f : A -> bool) (l l' : list A) :
  existsb f l = true -> existsb f (l ++ l') = true.
Proof. intros H. rewrite existsb_app, H. reflexivity. Qed.

(** The configuration is only read; the stop event is only set; [runs]
    only grows. *)
Lemma step_keeps (e : event) (s s' : Sys) :
  step e s = Some s' ->
  function (self s') = function (self s)
  /\ every_seconds (self s') = every_seconds (self s)
  /\ max_runs (self s') = max_runs (self s)
  /\ max_crashes (self s') = max_crashes (self s)
  /\ (_stop_event (self s) = true -> _stop_event (self s') = true)
  /\ runs (self s) <= runs (self s').
Proof.
  intros H. apply step_stepped in H.
  destruct H as [e clock j pc th _ H|e i inp pc j pc' _ Hn H| |].
  - loop_cases H; cbn; repeat split; auto; lia.
  - timer_cases H; cbn; repeat split; auto; lia.
  - cbn. repeat split; auto; lia.
  - cbn. repeat split; auto; lia.
Qed.

Lemma run_keeps (evs : list event) (s s' : Sys) :
  run evs s = Some s' ->
  function (self s') = function (self s)
  /\ every_seconds (self s') = every_seconds (self s)
  /\ max_runs (self s') = max_runs (self s)
  /\ max_crashes (self s') = max_crashes (self s)
  /\ (_stop_event (self s) = true -> _stop_event (self s') = true)
  /\ runs (self s) <= runs (self s').
Proof.
  revert s. induction evs as [|e evs IH]; intros s H; cbn in H.
  - injection H as <-. repeat split; auto; lia.
  - destruct (step e s) as [s1|] eqn:E; [|discriminate].
    destruct (step_keeps e s s1 E) as (A1 & A2 & A3 & A4 & A5 & A6).
    destruct (IH s1 H) as (B1 & B2 & B3 & B4 & B5 & B6).
    repeat split; try congruence; auto; lia.
Qed.

Lemma snoc_Forall {A : Type} (P : A -> Prop) (l : list A) (x : A) :
  Forall P (l ++ [x]) -> Forall P l /\ P x.
Proof.
  intros H. apply Forall_app in H as [H1 H2]. split; [exact H1|].
  inversion H2; assumption.
Qed.

(** ** The request to stop on line 87 *)

Section Requests.

Variables (every : Q) (fn : option string) (K maxr : Z).

(** The values of [runs] at which line 86 is known to send the thread to
    line 87. *)
Variable target : Z -> bool.
Hypothesis target_0 : target 0 = false.
Hypothesis target_86 :
  forall r, target r = true ->
            Qeq_bool every 0 || (r =? maxr) = true.

(** Whenever [runs] is such a value, the stop event is set or a timer
    thread is on line 86 or 87, on its way to set it. *)
Lemma requested_or_about_to (evs : list event) (s : Sys) :
  run evs (init every fn K maxr) = Some s ->
  target (runs (self s)) = true ->
  _stop_event (self s) = true \/ existsb at_86_87 (timers s) = true.
Proof.
  revert evs s.
  apply (run_ind (init every fn K maxr) (fun evs s =>
    target (runs (self s)) = true ->
    _stop_event (self s) = true \/ existsb at_86_87 (timers s) = true)).
  - cbn. rewrite target_0. discriminate.
  - intros evs s e s' Hrun IH Hstep.
    destruct (run_keeps _ _ _ Hrun) as (_ & Hev & Hmr & _). cbn in Hev, Hmr.
    apply step_stepped in Hstep.
    destruct Hstep as [e clock j pc th _ H|e i inp pc j pc' _ Hn H| |].
    + loop_cases H; cbn; intros Ht; destruct (IH Ht) as [A|A]; auto;
        right; try (rewrite app_nil_r; exact A);
        apply existsb_app_keep; exact A.
    + timer_cases H; cbn [self timers runs _stop_event set_status
                            set_next_execution_at set_crashed set_runs
                            set_stop_event set_exception_list];
        intros Ht;
        try (right; apply (existsb_set_nth_new _ _ _ _ _ Hn); reflexivity);
        try (left; reflexivity);
        try (destruct (IH Ht) as [A|A]; [left; exact A|];
             right; apply (existsb_set_nth_keep _ _ _ _ _ Hn);
             [reflexivity | exact A]).
      (* line 86 *)
      rewrite Hev, Hmr, (target_86 _ Ht).
      right. apply (existsb_set_nth_new _ _ _ _ _ Hn). reflexivity.
    + cbn. intros _. left. reflexivity.
    + cbn. exact IH.
Qed.

End Requests.

(** ** Who sets the stop event *)

Lemma stop_by_crash_limit (every : Q) (fn : option string) (K maxr : Z)
      (evs : list event) (s : Sys) :
  run evs (init every fn K maxr) = Some s ->
  Forall raises_only evs -> Forall no_stop evs ->
  (_stop_event (self s) = true -> crashed (self s) > K)
  /\ Forall (failing_ok (crashed (self s)) K) (timers s).
Proof.
  revert evs s.
  apply (run_ind (init every fn K maxr) (fun evs s =>
    Forall raises_only evs -> Forall no_stop evs ->
    (_stop_event (self s) = true -> crashed (self s) > K)
    /\ Forall (failing_ok (crashed (self s)) K) (timers s))).
  - intros _ _. cbn. split; [discriminate | constructor].
  - intros evs s e s' Hrun IH Hstep Hr Hn.
    apply snoc_Forall in Hr as [Hr Hre]. apply snoc_Forall in Hn as [Hn Hne].
    destruct (IH Hr Hn) as [Hs Hf]. clear IH.
    destruct (run_keeps _ _ _ Hrun) as (_ & _ & _ & Hmc & _). cbn in Hmc.
    apply step_stepped in Hstep.
    destruct Hstep as [e clock j pc th He H|e i inp pc j pc' He Hn' H| |].
    + loop_cases H; cbn; (split; [exact Hs|]);
        rewrite ?app_nil_r; try exact Hf.
      apply Forall_app. split; [exact Hf | repeat constructor].
    + pose proof (Forall_nth_error _ _ _ _ Hf Hn') as Hpc.
      timer_cases H; cbn in Hpc; try contradiction;
        cbn [self timers crashed _stop_event set_status
               set_next_execution_at set_crashed set_runs
               set_stop_event set_exception_list];
        try (split; [exact Hs|]; apply Forall_set_nth; [exact Hf | exact I]).
      * (* line 83 returns: not in this history *)
        destruct He as [[_ Hi]|[(t & _ & Hi)|(o & He & Ho)]];
          [discriminate Hi | discriminate Hi |].
        injection Ho as <-. subst e. cbn in Hre. contradiction.
      * (* line 92 *)
        split; [intros E; specialize (Hs E); lia|].
        apply Forall_set_nth; [|exact I].
        apply (Forall_impl _ (P := failing_ok (crashed (self s)) K));
          [|exact Hf].
        intros pc. destruct pc; cbn; auto; lia.
      * (* line 94 *)
        split; [exact Hs|]. apply Forall_set_nth; [exact Hf|].
        rewrite Hmc. destruct (Z.gtb_spec (crashed (self s)) K); cbn;
          [lia | exact I].
      * (* line 95 *)
        split; [exact Hs|]. apply Forall_set_nth; [exact Hf | exact Hpc].
      * (* line 96 *)
        split; [intros _; exact Hpc|].
        apply Forall_set_nth; [exact Hf | exact Hpc].
    + contradiction.
    + cbn. split; [exact Hs | exact Hf].
Qed.

Lemma stop_by_run_count (every : Q) (fn : option string) (K N : Z)
      (evs : list event) (s : Sys) :
  Qeq_bool every 0 = false ->
  run evs (init every fn K N) = Some s ->
  Forall returns_only evs -> Forall no_stop evs ->
  crashed (self s) = 0
  /\ (_stop_event (self s) = true -> N <= runs (self s) \/ K < 0)
  /\ Forall (returning_ok N K (runs (self s))) (timers s).
Proof.
  intros Hevery. revert evs s.
  apply (run_ind (init every fn K N) (fun evs s =>
    Forall returns_only evs -> Forall no_stop evs ->
    crashed (self s) = 0
    /\ (_stop_event (self s) = true -> N <= runs (self s) \/ K < 0)
    /\ Forall (returning_ok N K (runs (self s))) (timers s))).
  - intros _ _. cbn. split; [reflexivity|]. split; [discriminate|constructor].
  - intros evs s e s' Hrun IH Hstep Hr Hn.
    apply snoc_Forall in Hr as [Hr Hre]. apply snoc_Forall in Hn as [Hn Hne].
    destruct (IH Hr Hn) as (Hc & Hs & Hf). clear IH.
    destruct (run_keeps _ _ _ Hrun) as (_ & Hev & Hmr & Hmc & _).
    cbn in Hev, Hmr, Hmc.
    apply step_stepped in Hstep.
    destruct Hstep as [e clock j pc th He H|e i inp pc j pc' He Hn' H| |].
    + loop_cases H; cbn; (split; [exact Hc|]); (split; [exact Hs|]);
        rewrite ?app_nil_r; try exact Hf.
      apply Forall_app. split; [exact Hf | repeat constructor].
    + pose proof (Forall_nth_error _ _ _ _ Hf Hn') as Hpc.
      timer_cases H; cbn in Hpc; try contradiction;
        cbn [self timers crashed runs _stop_event set_status
               set_next_execution_at set_crashed set_runs
               set_stop_event set_exception_list];
        try (split; [first [exact Hc | reflexivity]|]; split; [exact Hs|];
             apply Forall_set_nth; [exact Hf | exact I]).
      * (* line 83 raises: not in this history *)
        destruct He as [[_ Hi]|[(t & _ & Hi)|(o & He & Ho)]];
          [discriminate Hi | discriminate Hi |].
        injection Ho as <-. subst e. cbn in Hre. contradiction.
      * (* line 85 *)
        split; [exact Hc|].
        split; [intros E; destruct (Hs E); [left; lia | right; assumption]|].
        apply Forall_set_nth; [|exact I].
        apply (Forall_impl _ (P := returning_ok N K (runs (self s))));
          [|exact Hf].
        intros pc. destruct pc; cbn; auto; lia.
      * (* line 86 *)
        split; [exact Hc|]. split; [exact Hs|].
        apply Forall_set_nth; [exact Hf|].
        rewrite Hev, Hevery, Hmr. cbn [orb].
        destruct (Z.eqb_spec (runs (self s)) N); cbn; [lia | exact I].
      * (* line 87 *)
        split; [exact Hc|]. split; [intros _; left; exact Hpc|].
        apply Forall_set_nth; [exact Hf | exact I].
      * (* line 94 *)
        split; [exact Hc|]. split; [exact Hs|].
        apply Forall_set_nth; [exact Hf|].
        rewrite Hc, Hmc. destruct (Z.gtb_spec 0 K); cbn; [lia | exact I].
      * (* line 95 *)
        split; [exact Hc|]. split; [exact Hs|].
        apply Forall_set_nth; [exact Hf | exact Hpc].
      * (* line 96 *)
        split; [exact Hc|]. split; [intros _; right; exact Hpc|].
        apply Forall_set_nth; [exact Hf | exact Hpc].
    + contradiction.
    + cbn. split; [exact Hc|]. split; [exact Hs | exact Hf].
Qed.

(** ** The claims on the stop requests of [_wrapper] *)

(** C1, as the code has it.  For a job made with a period of 0, in every
    line-by-line history.  An execution whose function returned requests
    the stop before it ends: whenever [runs] >= 1, the stop event is set or
    a timer thread is on line 86 or 87, the next lines of which set it.  An
    execution whose function raised requests the stop only past the crash
    limit: with a function that only raises and no call of [stop] by the
    owner, the stop event is set only with [crashed] above [max_crashes].
    And when [max_crashes] >= 1, a first execution that raises ends with the
    status [COMPLETED] and no stop requested, the loop starts a second timer
    and the function is called again. *)
Theorem period_zero_requests
        (every : Q) (fn : option string) (K maxr : Z) :
  (every == 0)%Q ->
  (forall evs s,
      run evs (init every fn K maxr) = Some s ->
      (1 <= runs (self s) ->
       _stop_event (self s) = true \/ existsb at_86_87 (timers s) = true)
      /\ (Forall raises_only evs -> Forall no_stop evs ->
          _stop_event (self s) = true -> crashed (self s) > K))
  /\ (1 <= K ->
      forall tb, exists s1 s2,
        run (loop_arms 100 ++ timer_runs 0 101 (Raises tb) 4)
            (init every fn K maxr) = Some s1
        /\ status (self s1) = COMPLETED
        /\ _stop_event (self s1) = false
        /\ crashed (self s1) = 1
        /\ run (loop_arms 102
                  ++ [TimerStep 1; TimerClock 1 103;
                      FunctionEnds 1 (Raises tb)]) s1 = Some s2
        /\ nth_error (timers s2) 1 = Some (W91 tb)).
Proof.
  intros Hz. split.
  - intros evs s Hrun. split.
    + intros Hr.
      apply (requested_or_about_to every fn K maxr (fun r => 1 <=? r)
               eq_refl) with (evs := evs); [|exact Hrun|].
      * intros r _. apply Qeq_bool_iff in Hz. rewrite Hz. reflexivity.
      * apply Z.leb_le. exact Hr.
    + intros Hr Hn.
      apply (stop_by_crash_limit every fn K maxr evs s Hrun Hr Hn).
  - intros HK tb.
    assert (H1 : (1 >? K) = false).
    { destruct (Z.gtb_spec 1 K); [lia | reflexivity]. }
    (* up to line 92 of the first execution *)
    assert (E : exists sA,
               run (loop_arms 100
                      ++ [TimerStep 0; TimerClock 0 101;
                          FunctionEnds 0 (Raises tb); TimerStep 0;
                          TimerStep 0])
                   (init every fn K maxr) = Some sA
               /\ timers sA = [W94] /\ loop sA = L105
               /\ crashed (self sA) = 1 /\ max_crashes (self sA) = K
               /\ _stop_event (self sA) = false).
    { vm_compute. eexists. repeat split. }
    destruct E as ([j l ts] & E & Ht & Hl & Hc & Hm & Hs).
    cbn in Ht, Hl, Hc, Hm, Hs. subst ts l.
    exists (mkSys (set_status COMPLETED j) L105 [Ended Returned]).
    eexists.
    split.
    { change (timer_runs 0 101 (Raises tb) 4)
        with ([TimerStep 0; TimerClock 0 101; FunctionEnds 0 (Raises tb);
               TimerStep 0; TimerStep 0] ++ [TimerStep 0; TimerStep 0]).
      rewrite app_assoc, run_concat, E.
      cbn [run step step_timer nth_error timers self loop wrapper_line].
      rewrite Hc, Hm, H1.
      cbn [run step step_timer nth_error timers self loop wrapper_line
             set_nth].
      reflexivity. }
    split; [reflexivity|]. split; [exact Hs|]. split; [exact Hc|].
    split.
    { unfold loop_arms.
      cbn [app run step step_loop loop_line self loop timers].
      cbn [_stop_event set_status]. rewrite Hs.
      cbn. reflexivity. }
    reflexivity.
Qed.

Lemma period_zero_requests_witness :
  exists s,
    run (loop_arms 100 ++ timer_runs 0 101 Returns 6)
        (init 0 (Some "f"%string) 10 (-1)) = Some s
    /\ runs (self s) = 1
    /\ existsb at_86_87 (timers s) = false
    /\ _stop_event (self s) = true.
Proof.
  assert (E : exists s,
             run (loop_arms 100 ++ timer_runs 0 101 Returns 6)
                 (init 0 (Some "f"%string) 10 (-1)) = Some s
             /\ runs (self s) = 1
             /\ existsb at_86_87 (timers s) = false).
  { vm_compute. eexists. repeat split. }
  destruct E as (s & E & Hr & Hx). exists s.
  split; [exact E|]. split; [exact Hr|]. split; [exact Hx|].
  destruct (period_zero_requests 0 (Some "f"%string) 10 (-1) (Qeq_refl 0))
    as (H & _).
  destruct (H _ s E) as (H1 & _).
  destruct H1 as [A|A]; [rewrite Hr; lia | exact A |].
  rewrite Hx in A. discriminate A.
Defined.

(** C2, as the code has it.  For a job made with [max_runs] = N >= 1, in
    every line-by-line history.  The execution that brings [runs] to N
    requests the stop before it ends: whenever [runs] = N, the stop event
    is set or a timer thread is on line 86 or 87, the next lines of which
    set it.  And with a period other than 0, a function that only returns
    and no call of [stop] by the owner, the stop event is not set while
    [runs] is below N, unless [max_crashes] is negative. *)
Theorem max_runs_requests
        (every : Q) (fn : option string) (K N : Z)
        (evs : list event) (s : Sys) :
  1 <= N ->
  run evs (init every fn K N) = Some s ->
  (runs (self s) = N ->
   _stop_event (self s) = true \/ existsb at_86_87 (timers s) = true)
  /\ (~ (every == 0)%Q ->
      Forall returns_only evs -> Forall no_stop evs ->
      _stop_event (self s) = true -> N <= runs (self s) \/ K < 0).
Proof.
  intros HN Hrun. split.
  - intros Hr.
    apply (requested_or_about_to every fn K N (fun r => r =? N))
      with (evs := evs); [| |exact Hrun|].
    + apply Z.eqb_neq. lia.
    + intros r E. rewrite E. apply orb_true_r.
    + apply Z.eqb_eq. exact Hr.
  - intros He Hr Hn.
    assert (Hb : Qeq_bool every 0 = false).
    { destruct (Qeq_bool every 0) eqn:E; [|reflexivity].
      apply Qeq_bool_iff in E. contradiction. }
    apply (stop_by_run_count every fn K N evs s Hb Hrun Hr Hn).
Qed.

Lemma max_runs_requests_witness :
  exists s,
    run (loop_arms 100 ++ timer_runs 0 101 Returns 5
           ++ loop_arms 102 ++ timer_runs 1 103 Returns 6)
        (init 1 (Some "f"%string) 10 2) = Some s
    /\ runs (self s) = 2
    /\ existsb at_86_87 (timers s) = false
    /\ _stop_event (self s) = true.
Proof.
  assert (E : exists s,
             run (loop_arms 100 ++ timer_runs 0 101 Returns 5
                    ++ loop_arms 102 ++ timer_runs 1 103 Returns 6)
                 (init 1 (Some "f"%string) 10 2) = Some s
             /\ runs (self s) = 2
             /\ existsb at_86_87 (timers s) = false).
  { vm_compute. eexists. repeat split. }
  destruct E as (s & E & Hr & Hx). exists s.
  split; [exact E|]. split; [exact Hr|]. split; [exact Hx|].
  assert (HN : 1 <= 2) by lia.
  destruct (max_runs_requests 1 (Some "f"%string) 10 2 _ s HN E) as (H & _).
  destruct (H Hr) as [A|A]; [exact A|].
  rewrite Hx in A. discriminate A.
Defined.

(** ** One timer thread at a time *)

Lemma live_count_zero_Forall (l : list timer_pc) (P : timer_pc -> Prop) :
  live_count l = 0%nat -> Forall (fun pc => live pc = true -> P pc) l.
Proof.
  intros H. apply Forall_forall. intros pc Hin Hl.
  apply In_nth_error in Hin as [i Hi].
  rewrite (live_count_zero _ _ _ H Hi) in Hl. discriminate Hl.
Qed.

Lemma live_of_line (inp : input) (pc : timer_pc) (j j' : Job)
      (pc' : timer_pc) :
  wrapper_line inp pc j = Some (j', pc') -> live pc = true.
Proof. destruct pc; cbn; try reflexivity. destruct inp; discriminate. Qed.

Lemma one_thread_step (e : event) (s s' : Sys) :
  one_thread s -> step e s = Some s' -> one_thread s'.
Proof.
  intros (Ha & Hb & Hd) Hstep. apply step_stepped in Hstep.
  destruct Hstep as [e clock j pc th _ H|e i inp pc j pc' _ Hn H| |].
  - (* the loop *)
    assert (Hkeep : forall pc',
               arming pc' = false -> loop s <> L121 ->
               one_thread (mkSys (self s) pc' (timers s))).
    { intros pc' Hp Hne. unfold one_thread. cbn [self loop timers].
      split; [exact Ha|]. split; [rewrite Hp; discriminate|].
      intros Hst. destruct (Hd Hst) as [H0 HF].
      split; [intros _; apply (H0 Hne) | exact HF]. }
    loop_cases H; rewrite ?app_nil_r.
    + (* 105 *)
      apply Hkeep; [destruct (_stop_event (self s)); reflexivity|].
      discriminate.
    + (* 108 *)
      unfold one_thread. cbn [self loop timers status set_status arming].
      split; [exact Ha|]. split; [discriminate|].
      destruct (status (self s)); cbn; discriminate.
    + (* 111 *)
      apply Hkeep; [|discriminate].
      match goal with
      | |- arming (if ?c then _ else _) = false => destruct c; reflexivity
      end.
    + (* 113 *)
      apply Hkeep; [destruct (function (self s)); reflexivity|].
      discriminate.
    + (* 115 *)
      change (Status_eqb (status (self s)) COMPLETED
              || (Status_eqb (status (self s)) INITIATED || false))
        with (between_executions (status (self s))).
      destruct (between_executions (status (self s))) eqn:Eb.
      * unfold one_thread. cbn [self loop timers arming]. rewrite Eb.
        destruct (Hd eq_refl) as [H0 HF].
        assert (Hz : live_count (timers s) = 0%nat)
          by (apply H0; discriminate).
        split; [exact Ha|]. split; [intros _; split; [exact Hz|reflexivity]|].
        intros _. split; [intros _; exact Hz | exact HF].
      * apply Hkeep; [reflexivity|]. discriminate.
    + (* 118 *)
      unfold one_thread. cbn [self loop timers arming].
      destruct (Hb eq_refl) as [Hz Hst].
      split; [exact Ha|]. split; [intros _; split; assumption|].
      intros _. destruct (Hd Hst) as [_ HF].
      split; [intros _; exact Hz | exact HF].
    + (* 119 *)
      unfold one_thread. cbn [self loop timers arming status set_job].
      destruct (Hb eq_refl) as [Hz Hst].
      split; [exact Ha|]. split; [intros _; split; assumption|].
      intros _. destruct (Hd Hst) as [_ HF].
      split; [intros _; exact Hz | exact HF].
    + (* 120, a timer is started *)
      unfold one_thread. cbn [self loop timers arming].
      destruct (Hb eq_refl) as [Hz Hst].
      rewrite live_count_app, Hz. cbn [live plus].
      split; [lia|]. split; [discriminate|].
      intros _. split; [intros E; contradiction|].
      apply Forall_app. split.
      * apply live_count_zero_Forall. exact Hz.
      * repeat constructor.
    + (* 120 without a timer *)
      apply Hkeep; [reflexivity|]. discriminate.
    + (* 121 *)
      unfold one_thread. cbn [self loop timers arming status set_status].
      split; [exact Ha|]. split; [discriminate|]. discriminate.
  - (* a timer thread *)
    pose proof (live_of_line _ _ _ _ _ H) as Hlive.
    assert (Hcount : live_count (timers s) = 1%nat
                     /\ live_count (set_nth i pc' (timers s))
                        = if live pc' then 1%nat else 0%nat).
    { pose proof (live_count_set_nth (timers s) i pc pc' Hn) as E.
      rewrite Hlive in E.
      assert (live_count (timers s) <> 0%nat).
      { intros Hz. rewrite (live_count_zero _ _ _ Hz Hn) in Hlive.
        discriminate Hlive. }
      destruct (live pc'); lia. }
    destruct Hcount as [Hc1 Hc'].
    assert (Hnarm : arming (loop s) = false).
    { destruct (arming (loop s)); [|reflexivity].
      destruct (Hb eq_refl) as [H0 _]. lia. }
    assert (Hwait : between_executions (status (self s)) = true ->
                    is_waiting pc = true).
    { intros Hst. destruct (Hd Hst) as [_ HF].
      apply (Forall_nth_error _ _ _ _ HF Hn Hlive). }
    unfold one_thread. cbn [self loop timers].
    split; [rewrite Hc'; destruct (live pc'); lia|].
    split; [rewrite Hnarm; discriminate|].
    timer_cases H;
      cbn [status set_status set_next_execution_at set_crashed set_runs
             set_stop_event set_exception_list between_executions
             status_in existsb Status_eqb orb];
      try discriminate;
      try (intros Hst; specialize (Hwait Hst); discriminate Hwait).
    (* line 99: the thread ends *)
    intros _. cbn in Hc'.
    split; [intros _; exact Hc'|].
    apply live_count_zero_Forall. exact Hc'.
  - exact (conj Ha (conj Hb Hd)).
  - exact (conj Ha (conj Hb Hd)).
Qed.

Lemma one_thread_run (evs : list event) (s s' : Sys) :
  one_thread s -> run evs s = Some s' -> one_thread s'.
Proof.
  revert s. induction evs as [|e evs IH]; intros s HI H; cbn in H.
  - congruence.
  - destruct (step e s) as [s1|] eqn:E; [|discriminate].
    eapply IH; [eapply one_thread_step; eauto | exact H].
Qed.

Lemma one_thread_init (every : Q) (fn : option string) (maxc maxr : Z) :
  one_thread (init every fn maxc maxr).
Proof.
  unfold one_thread. cbn. split; [lia|]. split; [discriminate|].
  intros _. split; [reflexivity | constructor].
Qed.

(** X1.  In every line-by-line history of a job, at most one timer thread
    is armed or inside [_wrapper] at any time; there is none while the loop
    thread is between the test of line 115 and [start()], and none while
    the status is [COMPLETED] or [INITIATED], except the one the loop has
    just started when it has not yet run line 121 (that thread has not
    fired).  So two executions of the function never overlap. *)
Theorem one_timer_thread
        (every : Q) (fn : option string) (maxc maxr : Z)
        (evs : list event) (s : Sys) :
  run evs (init every fn maxc maxr) = Some s ->
  (live_count (timers s) <= 1)%nat
  /\ (arming (loop s) = true -> live_count (timers s) = 0%nat)
  /\ (between_executions (status (self s)) = true ->
      loop s <> L121 -> live_count (timers s) = 0%nat).
Proof.
  intros Hrun.
  destruct (one_thread_run _ _ _ (one_thread_init every fn maxc maxr) Hrun)
    as (Ha & Hb & Hd).
  split; [exact Ha|]. split; [intros E; apply (Hb E)|].
  intros Hst. apply (Hd Hst).
Qed.

Lemma one_timer_thread_witness :
  exists s,
    run (loop_arms 100 ++ timer_runs 0 101 Returns 5
           ++ loop_arms 102 ++ [TimerStep 1; TimerClock 1 103])
        (init 1 (Some "f"%string) 10 (-1)) = Some s
    /\ List.length (timers s) = 2%nat
    /\ (live_count (timers s) <= 1)%nat.
Proof.
  assert (E : exists s,
             run (loop_arms 100 ++ timer_runs 0 101 Returns 5
                    ++ loop_arms 102 ++ [TimerStep 1; TimerClock 1 103])
                 (init 1 (Some "f"%string) 10 (-1)) = Some s
             /\ List.length (timers s) = 2%nat).
  { vm_compute. eexists. split; reflexivity. }
  destruct E as (s & E & Hl). exists s. split; [exact E|]. split; [exact Hl|].
  destruct (one_timer_thread 1 (Some "f"%string) 10 (-1) _ s E) as (H & _).
  exact H.
Defined.

(** ** The stop event and the last statuses *)

Lemma stop_marks_step (e : event) (s s' : Sys) :
  stop_marks s -> step e s = Some s' -> stop_marks s'.
Proof.
  intros (Hl & Ht & Hf) Hstep. apply step_stepped in Hstep.
  destruct Hstep as [e clock j pc th _ H|e i inp pc j pc' _ Hn H| |].
  - unfold stop_marks.
    loop_cases H; rewrite ?app_nil_r;
      cbn [self loop timers status _stop_event set_status set_job
             stop_seen] in *;
      try (split; [first [discriminate | exact Hl]|];
           split; [first [discriminate | exact Ht]|];
           first [discriminate | exact Hf]).
    + (* 105 *)
      split; [destruct (_stop_event (self s)) eqn:E;
              [reflexivity | discriminate]|].
      split; [exact Ht | exact Hf].
    + (* 108 *)
      specialize (Hl eq_refl).
      split; [intros _; exact Hl|]. split; [intros _; exact Hl|].
      intros _. left. exact Hl.
    + (* 111 *)
      split; [|split; [exact Ht | exact Hf]].
      match goal with
      | |- stop_seen (if ?c then _ else _) = true -> _ =>
          destruct c; discriminate
      end.
    + (* 113 *)
      split; [destruct (function (self s)); discriminate|].
      split; [exact Ht | exact Hf].
    + (* 115 *)
      split; [|split; [exact Ht | exact Hf]].
      match goal with
      | |- stop_seen (if ?c then _ else _) = true -> _ =>
          destruct c; discriminate
      end.
    + (* 120 *)
      split; [discriminate|]. split; [exact Ht|].
      intros E. destruct (Hf E) as [A|A]; [left; exact A|].
      right. apply existsb_app_keep. exact A.
  - unfold stop_marks. cbn [self loop timers].
    assert (Hkeep : at_96 pc = false ->
                    existsb at_96 (timers s) = true ->
                    existsb at_96 (set_nth i pc' (timers s)) = true).
    { intros E. apply (existsb_set_nth_keep _ _ _ _ _ Hn E). }
    timer_cases H;
      cbn [status _stop_event set_status set_next_execution_at set_crashed
             set_runs set_stop_event set_exception_list];
      try (split; [exact Hl|]; split; [exact Ht|];
           intros E; destruct (Hf E) as [A|A]; [left; exact A|];
           right; apply Hkeep; [reflexivity | exact A]);
      try (split; [exact Hl|]; split; discriminate);
      try (split; [reflexivity|]; split; [reflexivity|];
           intros _; left; reflexivity).
    (* line 95 *)
    split; [exact Hl|]. split; [discriminate|].
    intros _. right. apply (existsb_set_nth_new _ _ _ _ _ Hn). reflexivity.
  - unfold stop_marks. cbn. repeat split; auto.
  - exact (conj Hl (conj Ht Hf)).
Qed.

Lemma stop_marks_run (evs : list event) (s s' : Sys) :
  stop_marks s -> run evs s = Some s' -> stop_marks s'.
Proof.
  revert s. induction evs as [|e evs IH]; intros s HI H; cbn in H.
  - congruence.
  - destruct (step e s) as [s1|] eqn:E; [|discriminate].
    eapply IH; [eapply stop_marks_step; eauto | exact H].
Qed.

(** X3.  In every line-by-line history of a job: the status [TERMINATED]
    is only seen with the stop event set, and the loop thread is on line
    108 or has left its [while] only with the stop event set; the status
    [FAILED] is only seen with the stop event set or with the timer thread
    that wrote it about to set the event on line 96; and once the stop
    event is set it stays set, whatever happens next. *)
Theorem terminated_only_after_stop
        (every : Q) (fn : option string) (maxc maxr : Z)
        (evs : list event) (s : Sys) :
  run evs (init every fn maxc maxr) = Some s ->
  (status (self s) = TERMINATED -> _stop_event (self s) = true)
  /\ (stop_seen (loop s) = true -> _stop_event (self s) = true)
  /\ (status (self s) = FAILED ->
      _stop_event (self s) = true \/ existsb at_96 (timers s) = true)
  /\ forall rest s',
      run rest s = Some s' ->
      _stop_event (self s) = true -> _stop_event (self s') = true.
Proof.
  intros Hrun.
  assert (H0 : stop_marks (init every fn maxc maxr)).
  { unfold stop_marks. cbn. repeat split; discriminate. }
  destruct (stop_marks_run _ _ _ H0 Hrun) as (Hl & Ht & Hf).
  split; [exact Ht|]. split; [exact Hl|]. split; [exact Hf|].
  intros rest s' Hrest. apply (run_keeps _ _ _ Hrest).
Qed.

Lemma terminated_only_after_stop_witness :
  exists s,
    run (loop_arms 100 ++ [CallStop; LoopStep; LoopStep])
        (init 1 (Some "f"%string) 10 (-1)) = Some s
    /\ status (self s) = TERMINATED
    /\ _stop_event (self s) = true.
Proof.
  assert (E : exists s,
             run (loop_arms 100 ++ [CallStop; LoopStep; LoopStep])
                 (init 1 (Some "f"%string) 10 (-1)) = Some s
             /\ status (self s) = TERMINATED).
  { vm_compute. eexists. split; reflexivity. }
  destruct E as (s & E & Hst). exists s. split; [exact E|].
  split; [exact Hst|].
  destruct (terminated_only_after_stop 1 (Some "f"%string) 10 (-1) _ s E)
    as (H & _).
  exact (H Hst).
Defined.

(** ** After the stop event is set *)

Lemma after_stop_step (e : event) (s s' : Sys) :
  _stop_event (self s) = true -> step e s = Some s' ->
  (List.length (timers s') + may_still_arm (loop s')
   <= List.length (timers s) + may_still_arm (loop s))%nat.
Proof.
  intros Hs Hstep. apply step_stepped in Hstep.
  destruct Hstep as [e clock j pc th _ H|e i inp pc j pc' _ Hn H| |].
  - loop_cases H; rewrite ?app_nil_r; cbn [loop timers may_still_arm];
      rewrite ?length_app; cbn [List.length]; try lia.
    + rewrite Hs. cbn. lia.
    + match goal with
      | |- context [if ?c then _ else _] => destruct c; cbn; lia
      end.
    + destruct (function (self s)); cbn; lia.
    + match goal with
      | |- context [if ?c then _ else _] => destruct c; cbn; lia
      end.
  - cbn [loop timers]. rewrite length_set_nth. lia.
  - cbn. lia.
  - cbn. lia.
Qed.

(** X4.  After a call of [stop], whatever the state of the job and
    whatever happens next, the loop thread starts at most one more timer,
    and none unless it had already passed the test of line 105 (it is then
    between line 111 and line 120). *)
Theorem one_more_timer_after_stop
        (s : Sys) (rest : list event) (s' : Sys) :
  run (CallStop :: rest) s = Some s' ->
  (List.length (timers s')
   <= List.length (timers s) + may_still_arm (loop s))%nat
  /\ (List.length (timers s') <= List.length (timers s) + 1)%nat.
Proof.
  cbn [run step].
  set (s1 := mkSys (set_stop_event true (self s)) (loop s) (timers s)).
  assert (Hs1 : _stop_event (self s1) = true) by reflexivity.
  change (List.length (timers s)) with (List.length (timers s1)).
  change (loop s) with (loop s1).
  clearbody s1. clear s. revert s1 Hs1.
  induction rest as [|e rest IH]; intros s Hs H; cbn in H.
  - injection H as <-. destruct (loop s); cbn; lia.
  - destruct (step e s) as [s1|] eqn:E; [|discriminate].
    pose proof (after_stop_step e s s1 Hs E) as Hle.
    destruct (step_keeps e s s1 E) as (_ & _ & _ & _ & Hmono & _).
    destruct (IH s1 (Hmono Hs) H) as [A B].
    assert (may_still_arm (loop s) <= 1)%nat
      by (destruct (loop s); cbn; lia).
    assert (may_still_arm (loop s1) <= 1)%nat
      by (destruct (loop s1); cbn; lia).
    split; lia.
Qed.

Lemma one_more_timer_after_stop_witness :
  exists s0 s,
    run (loop_arms 100 ++ timer_runs 0 101 Returns 5 ++ [LoopStep])
        (init 1 (Some "f"%string) 10 (-1)) = Some s0
    /\ run (CallStop :: stop_after_line_105) s0 = Some s
    /\ (List.length (timers s) <= List.length (timers s0) + 1)%nat.
Proof.
  assert (E : exists s0 s,
             run (loop_arms 100 ++ timer_runs 0 101 Returns 5 ++ [LoopStep])
                 (init 1 (Some "f"%string) 10 (-1)) = Some s0
             /\ run (CallStop :: stop_after_line_105) s0 = Some s).
  { vm_compute. do 2 eexists. split; reflexivity. }
  destruct E as (s0 & s & E0 & E). exists s0, s.
  split; [exact E0|]. split; [exact E|].
  exact (proj2 (one_more_timer_after_stop s0 _ s E)).
Defined.

(** ** A job with no run limit *)




(** ** A job left [SCHEDULED] with no timer *)

Lemma stuck_step (e : event) (s s' : Sys) :
  stuck s -> no_stop e -> step e s = Some s' ->
  stuck s' /\ timers s' = timers s /\ runs (self s') = runs (self s).
Proof.
  intros (Hst & Hl & Hs & Hp) Hne Hstep. apply step_stepped in Hstep.
  destruct Hstep as [e clock j pc th _ H|e i inp pc j pc' _ Hn H| |].
  - unfold stuck.
    loop_cases H; cbn in Hp; try discriminate Hp; rewrite ?app_nil_r;
      cbn [self loop timers status runs _stop_event].
    + rewrite Hs. cbn. auto.
    + rewrite Hst. cbn. auto.
    + destruct (function (self s)); cbn; auto.
    + rewrite Hst. cbn. auto.
  - exfalso.
    pose proof (live_count_zero _ _ _ Hl Hn) as Hpc.
    destruct pc; cbn in Hpc; try discriminate Hpc.
    destruct inp as [|?|[|?]]; cbn in H; discriminate H.
  - contradiction.
  - unfold stuck. cbn. auto.
Qed.

(** X12.  A job whose status is [SCHEDULED] while no timer thread is
    waiting or running, with the stop event unset and the loop thread
    polling, stays so as long as the owner does not call [stop]: the
    status stays [SCHEDULED], no timer is started, [runs] does not move.
    The function is never run again, and the status keeps saying that a
    run is due. *)
Theorem stuck_in_scheduled (s : Sys) (evs : list event) (s' : Sys) :
  stuck s -> Forall no_stop evs -> run evs s = Some s' ->
  status (self s') = SCHEDULED
  /\ timers s' = timers s
  /\ runs (self s') = runs (self s)
  /\ _stop_event (self s') = false.
Proof.
  revert s. induction evs as [|e evs IH]; intros s Hs Hn H; cbn in H.
  - injection H as <-. destruct Hs as (A & _ & B & _). auto.
  - destruct (step e s) as [s1|] eqn:E; [|discriminate].
    inversion Hn as [|? ? Hne Hn']; subst.
    destruct (stuck_step e s s1 Hs Hne E) as (Hs1 & Ht & Hr).
    destruct (IH s1 Hs1 Hn' H) as (A & B & C & D).
    repeat split; congruence.
Qed.

Lemma stuck_in_scheduled_witness :
  exists s s',
    run wrapper_before_line_121 (init 1 (Some "f"%string) 10 (-1)) = Some s
    /\ stuck s
    /\ runs (self s) = 2
    /\ run [LoopStep; LoopStep; LoopStep; LoopStep; LoopStep; LoopStep] s
       = Some s'
    /\ status (self s') = SCHEDULED
    /\ timers s' = timers s.
Proof.
  assert (E : exists s s',
             run wrapper_before_line_121 (init 1 (Some "f"%string) 10 (-1))
             = Some s
             /\ stuck s
             /\ runs (self s) = 2
             /\ run [LoopStep; LoopStep; LoopStep; LoopStep; LoopStep;
                     LoopStep] s = Some s').
  { vm_compute. do 2 eexists. repeat split. }
  destruct E as (s & s' & E & Hs & Hr & E'). exists s, s'.
  split; [exact E|]. split; [exact Hs|]. split; [exact Hr|].
  split; [exact E'|].
  assert (Hn : Forall no_stop
                 [LoopStep; LoopStep; LoopStep; LoopStep; LoopStep; LoopStep])
    by (repeat constructor).
  destruct (stuck_in_scheduled s _ s' Hs Hn E') as (A & B & _).
  split; [exact A | exact B].
Defined.

(** ** How far [runs] can pass [max_runs] *)

Lemma pending_set_nth (l : list timer_pc) (i : nat) (x y : timer_pc) :
  nth_error l i = Some x ->
  (pending (set_nth i y l) + (if before_85 x then 1 else 0)
   = pending l + (if before_85 y then 1 else 0))%nat.
Proof.
  unfold pending. revert i.
  induction l as [|a l IH]; intros [|i] H; cbn in *; try discriminate.
  - injection H as ->. destruct (before_85 x), (before_85 y); cbn; lia.
  - specialize (IH i H). destruct (before_85 a); cbn; lia.
Qed.

Lemma pending_app (l : list timer_pc) (x : timer_pc) :
  pending (l ++ [x]) = (pending l + (if before_85 x then 1 else 0))%nat.
Proof.
  unfold pending. rewrite filter_app, length_app. cbn.
  destruct (before_85 x); reflexivity.
Qed.

Lemma pending_live (l : list timer_pc) :
  (pending l + (if existsb at_86_87 l then 1 else 0) <= live_count l)%nat.
Proof.
  unfold pending, live_count.
  induction l as [|a l IH]; cbn; [lia|].
  destruct (existsb at_86_87 l); destruct a; cbn; lia.
Qed.

Lemma wrapper_line_counts (inp : input) (pc : timer_pc) (j j' : Job)
      (pc' : timer_pc) :
  wrapper_line inp pc j = Some (j', pc') ->
  runs j' + (if before_85 pc' then 1 else 0)
  <= runs j + (if before_85 pc then 1 else 0).
Proof.
  intros H. timer_cases H; cbn; try lia;
    match goal with
    | |- context [before_85 (if ?c then _ else _)] => destruct c; cbn; lia
    end.
Qed.

Lemma within_limit_run (every : Q) (fn : option string) (K N : Z)
      (evs : list event) (s : Sys) :
  1 <= N -> run evs (init every fn K N) = Some s -> within_limit N s.
Proof.
  intros HN. revert evs s.
  apply (run_ind (init every fn K N) (fun _ s => within_limit N s)).
  - unfold within_limit. cbn. split; [lia | discriminate].
  - intros evs s e s' Hrun (I1 & I2) Hstep.
    pose proof (one_thread_run _ _ _ (one_thread_init every fn K N) Hrun)
      as (Ha & Hb & _).
    assert (HR : runs (self s) = N ->
                 _stop_event (self s) = true
                 \/ existsb at_86_87 (timers s) = true).
    { intros E.
      apply (requested_or_about_to every fn K N (fun r => r =? N))
        with (evs := evs); [| |exact Hrun|].
      - apply Z.eqb_neq. lia.
      - intros r Er. rewrite Er. apply orb_true_r.
      - apply Z.eqb_eq. exact E. }
    pose proof (pending_live (timers s)) as Hpl.
    assert (Harm : (may_still_arm (loop s) <= 1)%nat)
      by (destruct (loop s); cbn; lia).
    apply step_stepped in Hstep.
    destruct Hstep as [e clock j pc th _ H|e i inp pc j pc' _ Hn H| |].
    + unfold within_limit.
      loop_cases H; rewrite ?app_nil_r;
        cbn [self loop timers runs _stop_event set_status set_job
               may_still_arm] in *;
        try (split; [exact I1|]; intros E; specialize (I2 E); lia).
      * (* 105 *)
        split; [exact I1|]. intros E. specialize (I2 E). rewrite E. cbn. lia.
      * (* 111 *)
        split; [exact I1|]. intros E. specialize (I2 E).
        match goal with
        | |- context [if ?c then _ else _] => destruct c; cbn; lia
        end.
      * (* 113 *)
        split; [exact I1|]. intros E. specialize (I2 E).
        destruct (function (self s)); cbn; lia.
      * (* 115 *)
        split; [exact I1|]. intros E. specialize (I2 E).
        match goal with
        | |- context [if ?c then _ else _] => destruct c; cbn; lia
        end.
      * (* 120: no thread is live, so [runs] is below the limit *)
        destruct (Hb eq_refl) as [H0 _].
        rewrite pending_app. cbn [before_85].
        split; [|intros E; specialize (I2 E); lia].
        intros E. specialize (I1 E).
        assert (runs (self s) <> N).
        { intros Er. destruct (HR Er) as [A|A]; [congruence|].
          rewrite A in Hpl. lia. }
        lia.
    + pose proof (wrapper_line_counts _ _ _ _ _ H) as Hc.
      pose proof (pending_set_nth _ _ _ pc' Hn) as Hp.
      assert (Hmono : _stop_event (self s) = true -> _stop_event j = true).
      { clear Hc Hp. timer_cases H; cbn; auto. }
      unfold within_limit. cbn [self loop timers].
      assert (Hsum : runs j + Z.of_nat (pending (set_nth i pc' (timers s)))
                     <= runs (self s) + Z.of_nat (pending (timers s))).
      { destruct (before_85 pc), (before_85 pc'); lia. }
      split.
      * intros E. destruct (_stop_event (self s)) eqn:Es;
          [rewrite (Hmono eq_refl) in E; discriminate E|].
        specialize (I1 eq_refl). lia.
      * intros _. destruct (_stop_event (self s)) eqn:Es;
          [specialize (I2 eq_refl); lia | specialize (I1 eq_refl); lia].
    + unfold within_limit.
      cbn [self loop timers runs _stop_event set_stop_event].
      split; [discriminate|]. intros _.
      destruct (_stop_event (self s)) eqn:Es;
        [specialize (I2 eq_refl); lia | specialize (I1 eq_refl); lia].
    + exact (conj I1 I2).
Qed.

(** X8.  A job made with [max_runs] = N >= 1 runs its function at most
    N + 1 times: in every line-by-line history [runs] is at most N + 1, and
    at most N while the stop event is unset.  (N + 1 is reached when the
    loop thread runs line 105 while the N-th execution is between lines 85
    and 87, and line 111 after that execution has ended.) *)
Theorem runs_at_most_one_over
        (every : Q) (fn : option string) (K N : Z)
        (evs : list event) (s : Sys) :
  1 <= N ->
  run evs (init every fn K N) = Some s ->
  runs (self s) <= N + 1
  /\ (_stop_event (self s) = false -> runs (self s) <= N).
Proof.
  intros HN Hrun.
  destruct (within_limit_run every fn K N evs s HN Hrun) as (I1 & I2).
  split.
  - destruct (_stop_event (self s)) eqn:Es;
      [specialize (I2 eq_refl); lia | specialize (I1 eq_refl); lia].
  - intros E. specialize (I1 E). lia.
Qed.

Lemma runs_at_most_one_over_witness :
  exists s,
    run poll_during_last_run (init 1 (Some "f"%string) 10 1) = Some s
    /\ runs (self s) = 2
    /\ runs (self s) <= 1 + 1.
Proof.
  assert (E : exists s,
             run poll_during_last_run (init 1 (Some "f"%string) 10 1)
             = Some s
             /\ runs (self s) = 2).
  { vm_compute. eexists. repeat split. }
  destruct E as (s & E & Hr). exists s.
  split; [exact E|]. split; [exact Hr|].
  assert (HN : 1 <= 1) by lia.
  exact (proj1 (runs_at_most_one_over 1 (Some "f"%string) 10 1 _ s HN E)).
Defined.

(** ** The interval of the timer *)

Lemma py_round_near (x : Q) :
  (inject_Z (py_round x) - (1 # 2) <= x
   /\ x <= inject_Z (py_round x) + (1 # 2))%Q.
Proof.
  unfold py_round.
  pose proof (Qfloor_le x) as Hl. pose proof (Qlt_floor x) as Hu.
  rewrite inject_Z_plus in Hu. change (inject_Z 1) with 1%Q in Hu.
  cbv zeta.
  destruct (Qcompare_spec (x - inject_Z (Qfloor x)) (1 # 2)) as [E|E|E].
  - destruct (Z.even (Qfloor x)); rewrite ?inject_Z_plus;
      change (inject_Z 1) with 1%Q; split; lra.
  - split; lra.
  - rewrite inject_Z_plus. change (inject_Z 1) with 1%Q. split; lra.
Qed.

Lemma py_round_small (x : Q) :
  (0 <= x)%Q -> (x <= 1 # 2)%Q -> py_round x = 0.
Proof.
  intros H0 H1.
  assert (Hf : Qfloor x = 0).
  { pose proof (Qfloor_le x) as Hl. pose proof (Qlt_floor x) as Hu.
    assert (A : (inject_Z (Qfloor x) < inject_Z 1)%Q)
      by (change (inject_Z 1) with 1%Q; lra).
    pose proof (Qfloor_resp_le _ _ H0) as B. change (Qfloor 0) with 0 in B.
    rewrite <- Zlt_Qlt in A. lia. }
  unfold py_round. rewrite Hf. cbv zeta.
  change (inject_Z 0) with 0%Q.
  destruct (Qcompare_spec (x - 0) (1 # 2)) as [E|E|E];
    [reflexivity | reflexivity | lra].
Qed.

(** X10.  Line 118, with [t1] the clock read by the test and [t2] the
    clock read inside [round]: it always gives an interval; the interval
    is 1 second when the due time has come at [t1]; otherwise it is within
    half a second of the time left at [t2], and it is 0, a timer that
    fires at once, when half a second or less is left. *)
Theorem timer_interval (j : Job) (t1 t2 : Q) :
  exists secs,
    loop_line (Some (t1, t2)) L118 j = Some (j, L119 secs, None)
    /\ ((next_execution_at j <= t1)%Q -> secs = 1)
    /\ ((t1 < next_execution_at j)%Q ->
        (inject_Z secs - (1 # 2) <= next_execution_at j - t2
         /\ next_execution_at j - t2 <= inject_Z secs + (1 # 2))%Q)
    /\ ((t1 < next_execution_at j)%Q ->
        (0 <= next_execution_at j - t2)%Q ->
        (next_execution_at j - t2 <= 1 # 2)%Q -> secs = 0).
Proof.
  eexists. split; [reflexivity|]. unfold Qltb.
  destruct (Qle_bool (next_execution_at j) t1) eqn:E; cbn [negb].
  - apply Qle_bool_iff in E.
    split; [reflexivity|]. split; intros H; lra.
  - assert (Hn : ~ (next_execution_at j <= t1)%Q).
    { intros H. apply Qle_bool_iff in H. congruence. }
    split; [intros H; contradiction|].
    split; [intros _; apply py_round_near|].
    intros _. apply py_round_small.
Qed.

Lemma timer_interval_witness :
  loop_line (Some (1016 # 10, 1016 # 10)%Q) L118
            (set_next_execution_at 102 (self (init 1 None 10 (-1))))
  = Some (set_next_execution_at 102 (self (init 1 None 10 (-1))),
          L119 0, None).
Proof.
  destruct (timer_interval
              (set_next_execution_at 102 (self (init 1 None 10 (-1))))
              (1016 # 10) (1016 # 10)) as (secs & E & _ & _ & H0).
  rewrite E. rewrite H0; [reflexivity | | |]; vm_compute;
    first [reflexivity | discriminate].
Defined.

(** ** Past the crash limit *)

Lemma only_live (l : list timer_pc) (i k : nat) (pc q : timer_pc) :
  (live_count l <= 1)%nat ->
  nth_error l i = Some pc -> live pc = true ->
  k <> i -> nth_error l k = Some q -> live q = false.
Proof.
  revert i k. induction l as [|a l IH]; intros [|i] [|k] Hc Hi Hl Hk Hq;
    cbn in Hi, Hq; try discriminate; try contradiction.
  - injection Hi as ->. unfold live_count in Hc. cbn in Hc. rewrite Hl in Hc.
    cbn in Hc. apply (live_count_zero l k q); [unfold live_count; lia|].
    exact Hq.
  - injection Hq as ->. destruct (live q) eqn:E; [|reflexivity].
    unfold live_count in Hc. cbn in Hc. rewrite E in Hc. cbn in Hc.
    assert (H0 : live_count l = 0%nat) by (unfold live_count; lia).
    rewrite (live_count_zero l i pc H0 Hi) in Hl. discriminate Hl.
  - unfold live_count in Hc. cbn in Hc.
    destruct (live a) eqn:E; cbn in Hc.
    + apply (live_count_zero l k q); [unfold live_count; lia | exact Hq].
    + apply (IH i k); auto.
Qed.

Lemma only_live_set_nth (P : timer_pc -> Prop) (l : list timer_pc)
      (i : nat) (pc pc' : timer_pc) :
  (live_count l <= 1)%nat ->
  nth_error l i = Some pc -> live pc = true ->
  (live pc' = true -> P pc') ->
  Forall (fun q => live q = true -> P q) (set_nth i pc' l).
Proof.
  intros Hc Hi Hl Hp. apply Forall_forall. intros q Hin Hq.
  apply In_nth_error in Hin as [k Hk].
  destruct (Nat.eq_dec k i) as [->|Hne].
  - rewrite (nth_error_set_nth_same l i pc pc' Hi) in Hk.
    injection Hk as <-. exact (Hp Hq).
  - rewrite nth_error_set_nth_other in Hk by congruence.
    rewrite (only_live l i k pc q Hc Hi Hl Hne Hk) in Hq. discriminate Hq.
Qed.

Lemma crash_stopped_step (e : event) (s s' : Sys) :
  crash_stopped s -> step e s = Some s' ->
  crash_stopped s'
  /\ crashed (self s') = crashed (self s)
  /\ runs (self s') = runs (self s)
  /\ List.length (timers s') = List.length (timers s).
Proof.
  intros (Hc & Ha & Hb & Hf) Hstep. apply step_stepped in Hstep.
  destruct Hstep as [e clock j pc th _ H|e i inp pc j pc' _ Hn H| |].
  - unfold crash_stopped.
    loop_cases H; cbn in Ha; try discriminate Ha; rewrite ?app_nil_r;
      cbn [self loop timers status crashed runs max_crashes set_status
             arming].
    + (* 105 *)
      repeat split; auto. destruct (_stop_event (self s)); reflexivity.
    + (* 108 *)
      repeat split; auto.
      destruct (status (self s)); vm_compute in Hb |- *; congruence.
    + (* 111 *)
      repeat split; auto.
      match goal with
      | |- arming (if ?c then _ else _) = false => destruct c; reflexivity
      end.
    + (* 113 *)
      repeat split; auto. destruct (function (self s)); reflexivity.
    + (* 115 *)
      change (Status_eqb (status (self s)) COMPLETED
              || (Status_eqb (status (self s)) INITIATED || false))
        with (between_executions (status (self s))).
      rewrite Hb. repeat split; auto.
    + (* 121 *)
      repeat split; auto.
  - pose proof (Forall_nth_error _ _ _ _ Hf Hn (live_of_line _ _ _ _ _ H))
      as Hpc.
    unfold crash_stopped. cbn [self loop timers]. rewrite length_set_nth.
    timer_cases H; cbn in Hpc; try discriminate Hpc;
      cbn [status crashed runs max_crashes set_status set_stop_event].
    + (* 94 *)
      destruct (Z.gtb_spec (crashed (self s)) (max_crashes (self s)));
        [|lia].
      repeat split; auto.
      apply Forall_set_nth; [exact Hf | reflexivity].
    + repeat split; auto. apply Forall_set_nth; [exact Hf | reflexivity].
    + repeat split; auto. apply Forall_set_nth; [exact Hf | reflexivity].
    + repeat split; auto. apply Forall_set_nth; [exact Hf | discriminate].
  - unfold crash_stopped. cbn. repeat split; auto.
  - unfold crash_stopped. cbn. repeat split; auto.
Qed.

Lemma crash_stopped_run (evs : list event) (s s' : Sys) :
  crash_stopped s -> run evs s = Some s' ->
  crash_stopped s'
  /\ crashed (self s') = crashed (self s)
  /\ runs (self s') = runs (self s)
  /\ List.length (timers s') = List.length (timers s).
Proof.
  revert s. induction evs as [|e evs IH]; intros s HI H; cbn in H.
  - injection H as <-. auto.
  - destruct (step e s) as [s1|] eqn:E; [|discriminate].
    destruct (crash_stopped_step e s s1 HI E) as (H1 & A & B & C).
    destruct (IH s1 H1 H) as (H2 & A' & B' & C').
    repeat split; [apply H2..| | |]; congruence.
Qed.

Lemma crash_limit_run (every : Q) (fn : option string) (K N : Z)
      (evs : list event) (s : Sys) :
  0 <= K -> run evs (init every fn K N) = Some s ->
  crashed (self s) <= K + 1
  /\ (crashed (self s) > K -> crash_stopped s).
Proof.
  intros HK. revert evs s.
  apply (run_ind (init every fn K N) (fun _ s =>
    crashed (self s) <= K + 1
    /\ (crashed (self s) > K -> crash_stopped s))).
  - cbn. split; lia.
  - intros evs s e s' Hrun (Hle & Hq) Hstep.
    destruct (Z_gt_le_dec (crashed (self s)) K) as [Hgt|Hok].
    + destruct (crash_stopped_step e s s' (Hq Hgt) Hstep) as (Q' & Ec & _).
      split; [lia | intros _; exact Q'].
    + clear Hq Hle.
      pose proof (one_thread_run _ _ _ (one_thread_init every fn K N) Hrun)
        as (Ha & Hb & Hd).
      destruct (run_keeps _ _ _ Hrun) as (_ & _ & _ & Hmc & _).
      cbn in Hmc.
      apply step_stepped in Hstep.
      destruct Hstep as [e clock j pc th _ H|e i inp pc j pc' _ Hn H| |].
      * assert (Ec : crashed j = crashed (self s))
          by (loop_cases H; reflexivity).
        cbn [self]. rewrite Ec. split; lia.
      * cbn [self].
        pose proof (live_of_line _ _ _ _ _ H) as Hlive.
        timer_cases H; cbn [crashed set_status set_next_execution_at
                              set_crashed set_runs set_stop_event
                              set_exception_list];
          try (split; lia).
        (* line 92 *)
        split; [lia|]. intros Hgt.
        unfold crash_stopped.
        cbn [self loop timers crashed max_crashes status set_crashed].
        split; [lia|].
        assert (Hl0 : live_count (timers s) <> 0%nat).
        { intros E0. rewrite (live_count_zero _ _ _ E0 Hn) in Hlive.
          discriminate Hlive. }
        split; [|split].
        -- destruct (arming (loop s)) eqn:Ea; [|reflexivity].
           destruct (Hb eq_refl) as [E0 _]. contradiction.
        -- destruct (between_executions (status (self s))) eqn:Eb;
             [|reflexivity].
           destruct (Hd eq_refl) as [_ HF].
           pose proof (Forall_nth_error _ _ _ _ HF Hn Hlive) as Hw.
           discriminate Hw.
        -- apply (only_live_set_nth _ _ _ _ _ Ha Hn Hlive). reflexivity.
      * cbn. split; lia.
      * cbn. split; lia.
Qed.

(** X7.  A job made with [max_crashes] = K >= 0, whatever its function
    does and whatever the owner calls: in every line-by-line history
    [crashed] is at most K + 1; and once [crashed] is above K nothing more
    is executed: from then on no timer is started, [crashed] and [runs]
    keep their values, and the status is never [COMPLETED] or [INITIATED]
    again. *)
Theorem crash_limit_stops_executions
        (every : Q) (fn : option string) (K N : Z)
        (evs : list event) (s : Sys) :
  0 <= K ->
  run evs (init every fn K N) = Some s ->
  crashed (self s) <= K + 1
  /\ (crashed (self s) > K ->
      forall rest s',
        run rest s = Some s' ->
        List.length (timers s') = List.length (timers s)
        /\ crashed (self s') = crashed (self s)
        /\ runs (self s') = runs (self s)
        /\ between_executions (status (self s')) = false).
Proof.
  intros HK Hrun.
  destruct (crash_limit_run every fn K N evs s HK Hrun) as (Hle & Hq).
  split; [exact Hle|]. intros Hgt rest s' Hrest.
  destruct (crash_stopped_run rest s s' (Hq Hgt) Hrest)
    as ((_ & _ & Hb & _) & A & B & C).
  auto.
Qed.

Lemma crash_limit_stops_executions_witness :
  exists s1 s2,
    run second_crash_before_line_121 (init 1 (Some "f"%string) 1 (-1))
    = Some s1
    /\ crashed (self s1) = 2
    /\ run [LoopStep; LoopStep; LoopStep] s1 = Some s2
    /\ List.length (timers s2) = List.length (timers s1)
    /\ crashed (self s2) = 2.
Proof.
  assert (E : exists s1 s2,
             run second_crash_before_line_121
                 (init 1 (Some "f"%string) 1 (-1)) = Some s1
             /\ crashed (self s1) = 2
             /\ run [LoopStep; LoopStep; LoopStep] s1 = Some s2).
  { vm_compute. do 2 eexists. repeat split. }
  destruct E as (s1 & s2 & E1 & Hc & E2). exists s1, s2.
  split; [exact E1|]. split; [exact Hc|]. split; [exact E2|].
  assert (HK : 0 <= 1) by lia.
  destruct (crash_limit_stops_executions 1 (Some "f"%string) 1 (-1) _ s1
              HK E1) as (_ & H).
  assert (Hgt : crashed (self s1) > 1) by (rewrite Hc; lia).
  destruct (H Hgt _ s2 E2) as (A & B & _).
  split; [exact A|]. rewrite B. exact Hc.
Defined.

End Interleaving.
